(** * TectonicDB client (src/tectonic.ts): a shallow embedding

    The client owns one socket, one slot [activeQuery] and one array
    [socketSendQueue].  Everything it does happens in an event handler
    (connect, data, error, close) or in a call of [cmd]; the handlers are
    modelled as functions on the record of the object's fields, and what
    they do to the outside world (calls on the socket, calls of a query's
    [cb] and [onError]) is appended to a log of effects.  [console.log]
    calls are left out. *)

From Stdlib Require Import List String Ascii Bool Arith ZArith NArith Lia.
From Stdlib.Strings Require Import Byte.
From Stdlib Require Import DecimalString Sorted.
Import ListNotations.
Open Scope string_scope.
Open Scope list_scope.

Set Implicit Arguments.

(* ------------------------------------------------------------------ *)
(** ** Numbers in template literals *)

(** A JS Number is carried by the decimal that [Number::toString] prints:
    the digits [s] (read as a string of [k] digits) and the exponent [n] of
    ECMAScript's Number::toString, value [s * 10^(n-k)].  Binary rounding of
    doubles is outside the model. *)
Inductive number : Type :=
| NaN
| Infinity (negative : bool)
| Zero
| Finite (negative : bool) (s : positive) (n : Z).

Module JS.

Definition digits (s : positive) : string :=
    NilEmpty.string_of_uint (Pos.to_uint s).

Fixpoint zeros (n : nat) : string :=
    match n with
    | O => ""
    | S n' => "0" ++ zeros n'
    end.

Definition sign (negative : bool) : string :=
    if negative then "-" else "".

  (** Number::toString(x, 10). *)
Definition toString (x : number) : string :=
    match x with
    | NaN => "NaN"
    | Zero => "0"
    | Infinity neg => sign neg ++ "Infinity"
    | Finite neg s n =>
        let ds := digits s in
        let k := Z.of_nat (String.length ds) in
        sign neg ++
        (if (k <=? n)%Z && (n <=? 21)%Z then
           ds ++ zeros (Z.to_nat (n - k))
         else if (0 <? n)%Z && (n <=? 21)%Z then
           substring 0 (Z.to_nat n) ds ++ "." ++
           substring (Z.to_nat n) (Z.to_nat (k - n)) ds
         else if (-6 <? n)%Z && (n <=? 0)%Z then
           "0." ++ zeros (Z.to_nat (- n)) ++ ds
         else
           let e := (n - 1)%Z in
           let es := ((if (e <? 0)%Z then "-" else "+") ++
                      digits (Z.to_pos (Z.abs e)))%string in
           if (k =? 1)%Z then ds ++ "e" ++ es
           else substring 0 1 ds ++ "." ++
                substring 1 (Z.to_nat (k - 1)) ds ++ "e" ++ es)
    end.

  (** [typedArray.subarray(begin, end)] for non-negative arguments: both ends
      are clamped to the length and an end below the start gives an empty
      view. *)
Definition subarray (data : list byte) (begin end_ : nat) : list byte :=
    firstn (end_ - begin) (skipn begin data).

  (** [String.fromCharCode.apply(null, bytes)]: one character per byte. *)
Definition fromCharCode (bytes : list byte) : string :=
    string_of_list_byte bytes.

Fixpoint bytes_eqb (a b : list byte) : bool :=
    match a, b with
    | [], [] => true
    | x :: a', y :: b' => Byte.eqb x y && bytes_eqb a' b'
    | _, _ => false
    end.

  (** [buffer.toString().endsWith(suffix)] for an ASCII [suffix].  The
      buffer is decoded as UTF-8; a byte below 128 always decodes to its own
      character and no other byte sequence decodes to an ASCII character, so
      the test is a comparison of the last bytes. *)
Definition endsWith (data : list byte) (suffix : string) : bool :=
    let sfx := list_byte_of_string suffix in
    (List.length sfx <=? List.length data)%nat &&
    bytes_eqb (skipn (List.length data - List.length sfx) data) sfx.

End JS.

(* ------------------------------------------------------------------ *)
(** ** Data *)

(** [DBUpdate] of ./typings, with the fields the client reads ([pair] is
    read by the importer). *)
Record DBUpdate : Type := {
  pair : string;
  seq : number;
  is_trade : bool;
  is_bid : bool;
  price : number;
  size : number;
  timestamp : number
}.

Record TectonicResponse : Type := {
  success : bool;
  data : string
}.

(** A promise created by [cmd]; [resolve] and [reject] of the same promise
    are the [cb] and [onError] of a query. *)
Definition promise := nat.

Definition SocketError := string.

Record SocketQuery : Type := {
  message : string;
  cb : promise;
  onError : promise
}.

(** What the client does to its surroundings, in the order it does it. *)
Inductive effect : Type :=
| Connect (port : N) (address : string)   (* socket.connect(port, address, ..) *)
| Write (chunk : string)                  (* socket.write(chunk) *)
| Destroy                                 (* socket.destroy() *)
| Resolve (p : promise) (res : TectonicResponse)  (* query.cb(res) *)
| Reject (p : promise) (err : SocketError).       (* query.onError(err) *)

Record TectonicDB : Type := {
  port : N;
  address : string;
  socketSendQueue : list SocketQuery;
  activeQuery : option SocketQuery;
  initialized : bool;
  effects : list effect;     (* log of the calls made so far *)
  promises : nat             (* promises created so far *)
}.

Definition PORT : N := 9001.
Definition HOST : string := "localhost".

Definition perform (c : TectonicDB) (e : effect) : TectonicDB :=
  {| port := port c; address := address c;
     socketSendQueue := socketSendQueue c;
     activeQuery := activeQuery c;
     initialized := initialized c;
     effects := effects c ++ [e];
     promises := promises c |}.

Definition set_activeQuery (c : TectonicDB) (q : option SocketQuery) : TectonicDB :=
  {| port := port c; address := address c;
     socketSendQueue := socketSendQueue c;
     activeQuery := q;
     initialized := initialized c;
     effects := effects c;
     promises := promises c |}.

Definition set_socketSendQueue (c : TectonicDB) (l : list SocketQuery) : TectonicDB :=
  {| port := port c; address := address c;
     socketSendQueue := l;
     activeQuery := activeQuery c;
     initialized := initialized c;
     effects := effects c;
     promises := promises c |}.

Definition set_initialized (c : TectonicDB) (b : bool) : TectonicDB :=
  {| port := port c; address := address c;
     socketSendQueue := socketSendQueue c;
     activeQuery := activeQuery c;
     initialized := b;
     effects := effects c;
     promises := promises c |}.

(** [new Promise(..)]: the next promise. *)
Definition new_promise (c : TectonicDB) : TectonicDB * promise :=
  ({| port := port c; address := address c;
      socketSendQueue := socketSendQueue c;
      activeQuery := activeQuery c;
      initialized := initialized c;
      effects := effects c;
      promises := S (promises c) |}, promises c).

(* ------------------------------------------------------------------ *)
(** ** The client *)

(** The string '\n'. *)
Definition nl : string := String "010" "".

(** [sendSocketMsg(msg)]. *)
Definition sendSocketMsg (c : TectonicDB) (msg : string) : TectonicDB :=
  perform c (Write (msg ++ nl)).

(** [exit()]. *)
Definition exit (c : TectonicDB) : TectonicDB :=
  perform c Destroy.

(** [socketSendQueue.shift()] into [activeQuery]; on an empty array [shift]
    gives [undefined]. *)
Definition shift_into_activeQuery (c : TectonicDB) : TectonicDB :=
  match socketSendQueue c with
  | [] => set_activeQuery c None
  | q :: rest => set_activeQuery (set_socketSendQueue c rest) (Some q)
  end.

(** The constructor with [init()]: [port || PORT], [address || HOST] (an
    omitted argument is [None]; 0 and the empty string are falsy), the empty
    queue, and the call of [socket.connect]. *)
Definition new_TectonicDB (port_ : option N) (address_ : option string) : TectonicDB :=
  let a := match address_ with
           | None | Some "" => HOST
           | Some s => s
           end in
  let p := match port_ with
           | None | Some 0%N => PORT
           | Some n => n
           end in
  {| port := p; address := a;
     socketSendQueue := [];
     activeQuery := None;
     initialized := false;
     effects := [Connect p a];
     promises := 0 |}.

(** The callback of [socket.connect]. *)
Definition on_connect (c : TectonicDB) : TectonicDB :=
  let c := set_initialized c true in
  if (0 <? List.length (socketSendQueue c))%nat then
    let c := shift_into_activeQuery c in
    match activeQuery c with
    | Some q => sendSocketMsg c (message q)
    | None => c
    end
  else c.

(** The 'close' listener only logs. *)
Definition on_close (c : TectonicDB) : TectonicDB := c.

(** The 'error' listener. *)
Definition on_error (c : TectonicDB) (err : SocketError) : TectonicDB :=
  match activeQuery c with
  | Some q => perform c (Reject (onError q) err)
  | None => c
  end.

(** The first lines of [handleSocketData]: the response read off the
    buffer. *)
Definition decode (buf : list byte) : TectonicResponse :=
  let success := match nth_error (JS.subarray buf 0 8) 0 with
                 | Some b => Byte.eqb b x01
                 | None => false          (* undefined === 1 *)
                 end in
  let len := nth_error (JS.subarray buf 8 9) 0 in
  let end_ := match len with
              | Some l => Byte.to_nat l + 12
              | None => 0                 (* undefined + 12 is NaN, an end of 0 *)
              end in
  let dataBody := JS.fromCharCode (JS.subarray buf 9 end_) in
  {| success := success; data := dataBody |}.

(** [handleSocketData(data)]. *)
Definition handleSocketData (c : TectonicDB) (buf : list byte) : TectonicDB :=
  let response := decode buf in
  let c := match activeQuery c with
           | Some q => perform c (Resolve (cb q) response)
           | None => c
           end in
  let c := if JS.endsWith buf "exit" then exit c else c in
  if (List.length (socketSendQueue c) =? 0)%nat then set_activeQuery c None
  else shift_into_activeQuery c.

(** [cmd(message)]: the promise it returns and the state after its
    executor has run. *)
Definition cmd (c : TectonicDB) (msg : string) : TectonicDB * promise :=
  let (c, p) := new_promise c in
  let query := {| message := msg; cb := p; onError := p |} in
  if negb (match activeQuery c with Some _ => true | None => false end)
     || negb (initialized c)
  then
    let c := set_activeQuery c (Some query) in
    (sendSocketMsg c msg, p)
  else
    (set_socketSendQueue c (socketSendQueue c ++ [query]), p).

(* ------------------------------------------------------------------ *)
(** ** Events *)

(** What can happen to a client: a call of [cmd] or one of the socket's
    events. *)
Inductive event : Type :=
| EvCmd (message : string)
| EvConnect
| EvData (buf : list byte)
| EvError (err : SocketError)
| EvClose.

Definition step (c : TectonicDB) (e : event) : TectonicDB :=
  match e with
  | EvCmd msg => fst (cmd c msg)
  | EvConnect => on_connect c
  | EvData buf => handleSocketData c buf
  | EvError err => on_error c err
  | EvClose => on_close c
  end.

Definition run (c : TectonicDB) (es : list event) : TectonicDB :=
  fold_left step es c.

(** The chunks given to [socket.write], in order. *)
Fixpoint written (l : list effect) : list string :=
  match l with
  | [] => []
  | Write chunk :: l' => chunk :: written l'
  | _ :: l' => written l'
  end.

Definition is_data (e : event) : bool :=
  match e with EvData _ => true | _ => false end.

Definition is_cmd_or_data (e : event) : bool :=
  match e with EvCmd _ | EvData _ => true | _ => false end.

(** Commands written and not yet answered, counted along the events [es]
    from the client [c] with [n] of them unanswered at the start.  The
    protocol has no request identifier: a frame answers the oldest
    unanswered command, if there is one, and each chunk written by the step
    is one more command to answer. *)
Fixpoint unanswered (c : TectonicDB) (es : list event) (n : nat) : nat :=
  match es with
  | [] => n
  | e :: es' =>
      let c' := step c e in
      let sent := List.length (written (effects c'))
                  - List.length (written (effects c)) in
      unanswered c' es' ((if is_data e then pred n else n) + sent)
  end.

Definition in_flight (c0 : TectonicDB) (es : list event) : nat :=
  unanswered c0 es 0.

(** How a promise was settled, if it was: the first call of its [resolve] or
    [reject] counts. *)
Fixpoint settled (l : list effect) (p : promise)
  : option (TectonicResponse + SocketError) :=
  match l with
  | [] => None
  | Resolve q res :: l' => if (q =? p)%nat then Some (inl res) else settled l' p
  | Reject q err :: l' => if (q =? p)%nat then Some (inr err) else settled l' p
  | _ :: l' => settled l' p
  end.

(** Every promise named in the log has been created. *)
Definition known (bound : nat) (e : effect) : bool :=
  match e with
  | Resolve p _ | Reject p _ => (p <? bound)%nat
  | _ => true
  end.

(** A connected client with nothing outstanding. *)
Definition is_idle (c : TectonicDB) : bool :=
  initialized c
  && match activeQuery c with None => true | Some _ => false end
  && (List.length (socketSendQueue c) =? 0)%nat
  && forallb (known (promises c)) (effects c).

(* ------------------------------------------------------------------ *)
(** ** Async functions *)

Inductive exn : Type :=
| Rejected (err : SocketError)      (* an awaited promise was rejected *)
| SyntaxError (text : string).      (* JSON.parse *)

(** The body of an async method up to its next [await this.cmd(..)]. *)
Inductive async (A : Type) : Type :=
| Return (a : A)
| Throw (e : exn)
| Await (message : string) (k : TectonicResponse -> async A).

Arguments Throw {A} e.

Fixpoint bind A B (m : async A) (f : A -> async B) : async B :=
  match m with
  | Return a => f a
  | Throw e => Throw e
  | Await msg k => Await msg (fun res => bind (k res) f)
  end.

Notation "'let*' x ':=' m 'in' f" := (bind m (fun x => f))
  (at level 10, x name, m at level 100, f at level 200).

(** [await this.cmd(msg)]. *)
Definition await_cmd (msg : string) : async TectonicResponse :=
  Await msg (fun res => Return res).

(** [for (const x of l) { body }]. *)
Fixpoint for_of A (l : list A) (body : A -> async unit) : async unit :=
  match l with
  | [] => Return tt
  | x :: l' => let* _ := body x in for_of l' body
  end.

Inductive outcome (A : Type) : Type :=
| Returned (a : A)
| Thrown (e : exn)
| Pending.                          (* suspended at an await *)

Arguments Thrown {A} e.
Arguments Pending {A}.

(** One async call run against a client whose server sends one frame after
    each call of [cmd]: [server p msg] is the frame that follows the command
    [msg] of promise [p].  The caller resumes once its promise is settled;
    [resolve] runs the continuation after the data handler has returned. *)
Fixpoint drive A (server : promise -> string -> list byte)
         (task : async A) (c : TectonicDB) : TectonicDB * outcome A :=
  match task with
  | Return a => (c, Returned a)
  | Throw e => (c, Thrown e)
  | Await msg k =>
      let (c, p) := cmd c msg in
      let c := handleSocketData c (server p msg) in
      match settled (effects c) p with
      | Some (inl res) => drive server (k res) c
      | Some (inr err) => (c, Thrown (Rejected err))
      | None => (c, Pending)
      end
  end.

(* ------------------------------------------------------------------ *)
(** ** The commands *)

Definition info : async TectonicResponse :=
  let* r := await_cmd "INFO" in Return r.

Definition ping : async TectonicResponse :=
  let* r := await_cmd "PING" in Return r.

Definition help : async unit :=
  let* _ := await_cmd "HELP" in Return tt.

Definition tf (b : bool) : string := if b then "t" else "f".

Definition add (update : DBUpdate) : async TectonicResponse :=
  let* r := await_cmd
    ("ADD " ++ JS.toString (timestamp update) ++ ", " ++ JS.toString (seq update)
     ++ ", " ++ tf (is_trade update) ++ ", " ++ tf (is_bid update)
     ++ ", " ++ JS.toString (price update) ++ ", " ++ JS.toString (size update)
     ++ ";") in
  Return r.

(** The template literal in the loops of [bulkadd] and [bulkadd_into]. *)
Definition bulk_row (update : DBUpdate) : string :=
  JS.toString (timestamp update) ++ ", " ++ JS.toString (seq update)
  ++ ", " ++ tf (is_trade update) ++ ", " ++ tf (is_bid update)
  ++ ", " ++ JS.toString (price update) ++ ", " ++ JS.toString (size update)
  ++ ";".

Definition bulkadd (updates : list DBUpdate) : async TectonicResponse :=
  let* _ := await_cmd "BULKADD" in
  let* _ := for_of updates
              (fun u => let* _ := await_cmd (bulk_row u) in Return tt) in
  let* r := await_cmd "DDAKLUB" in
  Return r.

Definition bulkadd_into (updates : list DBUpdate) (db : string)
  : async TectonicResponse :=
  let* _ := await_cmd ("BULKADD INTO " ++ db) in
  let* _ := for_of updates
              (fun u => let* _ := await_cmd (bulk_row u) in Return tt) in
  let* r := await_cmd "DDAKLUB" in
  Return r.

Definition insert (update : DBUpdate) (db : string) : async TectonicResponse :=
  let* r := await_cmd
    ("ADD " ++ JS.toString (timestamp update) ++ ", " ++ JS.toString (seq update)
     ++ ", " ++ tf (is_trade update) ++ ", " ++ tf (is_bid update)
     ++ ", " ++ JS.toString (price update) ++ ", " ++ JS.toString (size update)
     ++ "; INTO " ++ db) in
  Return r.

Definition clear : async TectonicResponse :=
  let* r := await_cmd "CLEAR" in Return r.

Definition clearall : async TectonicResponse :=
  let* r := await_cmd "CLEAR ALL" in Return r.

Definition flush : async TectonicResponse :=
  let* r := await_cmd "FLUSH" in Return r.

Definition flushall : async TectonicResponse :=
  let* r := await_cmd "FLUSH ALL" in Return r.

Definition create (dbname : string) : async TectonicResponse :=
  let* r := await_cmd ("CREATE " ++ dbname) in Return r.

Definition use (dbname : string) : async TectonicResponse :=
  let* r := await_cmd ("USE " ++ dbname) in Return r.

(** What [get] and [getall] give back. *)
Inductive value (json : Type) : Type :=
| Parsed (j : json)
| Raw (s : string)
| Null.

Arguments Raw {json} s.
Arguments Null {json}.

Section Queries.

  (** [JSON.parse]: the parsed structure, or [None] where it throws. *)
Variable json : Type.
Variable JSON_parse : string -> option json.

Definition parse (text : string) : async (value json) :=
    match JSON_parse text with
    | Some j => Return (Parsed j)
    | None => Throw (SyntaxError text)
    end.

  (** What [JSON.parse(data)] makes of an async function that returns it. *)
Definition parsed (text : string) : outcome (value json) :=
    match JSON_parse text with
    | Some j => Returned (Parsed j)
    | None => Thrown (SyntaxError text)
    end.

Definition getall : async (value json) :=
    let* r := await_cmd "GET ALL AS JSON" in
    if success r then parse (data r) else Return Null.

Definition get (n : number) : async (value json) :=
    let* r := await_cmd ("GET " ++ JS.toString n ++ " AS JSON") in
    if success r then parse (data r) else Return (Raw (data r)).

End Queries.

(** A client whose socket has connected and that has been given nothing
    yet. *)
Definition idle : TectonicDB := on_connect (new_TectonicDB None None).

(** The spec's [submit] (section 4.2), in its words: send at once if no
    query is active and the connection is Connected, otherwise append to the
    tail of the queue. *)
Definition submit_spec (c : TectonicDB) (msg : string) : TectonicDB * promise :=
  let (c, p) := new_promise c in
  let query := {| message := msg; cb := p; onError := p |} in
  if match activeQuery c with None => true | Some _ => false end
     && initialized c
  then (sendSocketMsg (set_activeQuery c (Some query)) msg, p)
  else (set_socketSendQueue c (socketSendQueue c ++ [query]), p).

(* ------------------------------------------------------------------ *)
(** ** Vocabulary of the statements *)

(** The query [cmd] builds for [msg] with the promise [p]. *)
Definition query (msg : string) (p : promise) : SocketQuery :=
  {| message := msg; cb := p; onError := p |}.

(** Every queued or active query was given to [cmd], and every chunk written
    is the text of such a command with a newline. *)
Definition from_cmds (es : list event) (c : TectonicDB) : Prop :=
  (forall q, In q (socketSendQueue c) -> In (EvCmd (message q)) es)
  /\ (forall q, activeQuery c = Some q -> In (EvCmd (message q)) es)
  /\ (forall chunk, In chunk (written (effects c)) ->
        exists msg, In (EvCmd msg) es /\ chunk = (msg ++ nl)%string).

(** What one awaited command leaves in the log of an idle client: the line
    written, the call of the caller's [resolve] with the decoded frame, and
    the socket destroyed if the frame ends with "exit". *)
Definition exchange (p : promise) (msg : string) (buf : list byte) : list effect :=
  Write (msg ++ nl) :: Resolve p (decode buf)
  :: (if JS.endsWith buf "exit" then [Destroy] else []).

Fixpoint exchanges (server : promise -> string -> list byte)
         (p : promise) (msgs : list string) : list effect :=
  match msgs with
  | [] => []
  | m :: msgs' => exchange p m (server p m) ++ exchanges server (S p) msgs'
  end.

(** The record of the spec's end-to-end scenario, and a frame that says
    success with the text OK. *)
Definition sample_update : DBUpdate :=
  {| pair := "default"; seq := Zero; is_trade := true; is_bid := true;
     price := Finite false 1 0; size := Finite false 1 0;
     timestamp := Finite false 1 3 |}.

Definition ok_frame : list byte :=
  [x01; x00; x00; x00; x00; x00; x00; x00; x02; "O"%byte; "K"%byte].

(** A stand-in for [JSON.parse] that knows two texts. *)
Definition toy_parse (text : string) : option (list nat) :=
  if String.eqb text "[]" then Some []
  else if String.eqb text "[1]" then Some [1]
  else None.

(* ------------------------------------------------------------------ *)
(** ** Reading the log and the events *)

(** The promises whose [resolve] was called, in the order of the calls. *)
Fixpoint resolved (l : list effect) : list promise :=
  match l with
  | [] => []
  | Resolve p _ :: l' => p :: resolved l'
  | _ :: l' => resolved l'
  end.

(** How many times [socket.destroy] was called. *)
Fixpoint destroyed (l : list effect) : nat :=
  match l with
  | [] => 0
  | Destroy :: l' => S (destroyed l')
  | _ :: l' => destroyed l'
  end.

(** How many times [socket.connect] was called. *)
Fixpoint connects (l : list effect) : nat :=
  match l with
  | [] => 0
  | Connect _ _ :: l' => S (connects l')
  | _ :: l' => connects l'
  end.

(** The promises of the queries the client still holds: the active one, then
    the queue from its head. *)
Definition pending (c : TectonicDB) : list promise :=
  match activeQuery c with
  | Some q => [cb q]
  | None => []
  end ++ map cb (socketSendQueue c).

(** The promises a client can still settle: those of [cb] and [onError] of
    its active query and of its queued queries. *)
Definition held (c : TectonicDB) : list promise :=
  flat_map (fun q => [cb q; onError q])
           (match activeQuery c with
            | Some q => [q]
            | None => []
            end ++ socketSendQueue c).

(** The texts given to [cmd], in the order of the calls. *)
Fixpoint cmds (es : list event) : list string :=
  match es with
  | [] => []
  | EvCmd msg :: es' => msg :: cmds es'
  | _ :: es' => cmds es'
  end.

(** A command text as [sendSocketMsg] writes it. *)
Definition line (msg : string) : string := String.append msg nl.

(** The lines of the queued queries, from the head of the queue. *)
Definition queued_lines (c : TectonicDB) : list string :=
  map (fun q => line (message q)) (socketSendQueue c).

(** [subseq l l']: [l] is [l'] with some elements left out, the others in
    place. *)
Inductive subseq (A : Type) : list A -> list A -> Prop :=
| subseq_nil : subseq [] []
| subseq_skip (x : A) (l l' : list A) : subseq l l' -> subseq l (x :: l')
| subseq_keep (x : A) (l l' : list A) : subseq l l' -> subseq (x :: l) (x :: l').

(** What every client keeps: nothing is queued before the socket has
    connected or without an active query; the promises resolved so far, then
    the active one, then the queued ones are in the order of their creation;
    and all of them have been created. *)
Definition well_ordered (c : TectonicDB) : Prop :=
  (initialized c = false -> socketSendQueue c = [])
  /\ (activeQuery c = None -> socketSendQueue c = [])
  /\ Sorted.StronglySorted lt (resolved (effects c) ++ pending c)
  /\ Forall (fun p => p < promises c) (resolved (effects c) ++ pending c).

(** A data event whose buffer ends with "exit". *)
Definition is_exit_frame (e : event) : bool :=
  match e with
  | EvData buf => JS.endsWith buf "exit"
  | _ => false
  end.

(** The events that are neither a frame nor the connect callback. *)
Definition is_cmd_error_or_close (e : event) : bool :=
  match e with
  | EvCmd _ | EvError _ | EvClose => true
  | _ => false
  end.

Definition is_connect (e : event) : bool :=
  match e with EvConnect => true | _ => false end.

(* ------------------------------------------------------------------ *)
(** ** The importer (the file that feeds the client) *)

(** The entries of an exchange update, with the fields [formatUpdate]
    reads (the types are those of ./typings). *)
Record Order : Type := {
  Rate : number;
  Quantity : number;
  Type_ : number            (* the field [Type] *)
}.

Record Fill : Type := {
  OrderType : string;
  FillRate : number;        (* the field [Rate] *)
  FillQuantity : number;    (* the field [Quantity] *)
  TimeStamp : string
}.

Record ExchangeStateUpdate : Type := {
  MarketName : string;
  Nounce : number;
  Buys : list Order;
  Sells : list Order;
  Fills : list Fill
}.

(** An element of the array [formatUpdate] builds: the fields the client
    reads, and the field [type] ([None] for null), which it does not. *)
Record FormattedUpdate : Type := {
  fields : DBUpdate;
  type : option number
}.

(** What the callback given to [listen] in [watch] does with one update. *)
Inductive callback_result : Type :=
| TypeError                                  (* updates[0] is undefined *)
| CallBulkaddInto (updates : list FormattedUpdate) (db : string).

Section Importer.

(** [toPair] of ./utils; [Date.now()] at the call; the time a fill's
    [TimeStamp] parses to, [new Date(s).getTime()]; and the division
    [x / 1000] on Numbers. *)
Variable toPair : string -> string.
Variable Date_now : number.
Variable getTime : string -> number.
Variable div1000 : number -> number.

Definition format_buy (v : ExchangeStateUpdate) (buy : Order) : FormattedUpdate :=
  {| fields := {| pair := toPair (MarketName v); seq := Nounce v;
                  is_trade := false; is_bid := true;
                  price := Rate buy; size := Quantity buy;
                  timestamp := div1000 Date_now |};
     type := Some (Type_ buy) |}.

Definition format_sell (v : ExchangeStateUpdate) (sell : Order) : FormattedUpdate :=
  {| fields := {| pair := toPair (MarketName v); seq := Nounce v;
                  is_trade := false; is_bid := false;
                  price := Rate sell; size := Quantity sell;
                  timestamp := div1000 Date_now |};
     type := Some (Type_ sell) |}.

Definition format_fill (v : ExchangeStateUpdate) (fill : Fill) : FormattedUpdate :=
  {| fields := {| pair := toPair (MarketName v); seq := Nounce v;
                  is_trade := true;
                  is_bid := String.eqb (OrderType fill) "BUY";
                  price := FillRate fill; size := FillQuantity fill;
                  timestamp := div1000 (getTime (TimeStamp fill)) |};
     type := None |}.

(** [formatUpdate(v)]: the three [forEach] loops push in turn. *)
Definition formatUpdate (v : ExchangeStateUpdate) : list FormattedUpdate :=
  let updates := [] in
  let updates := updates ++ map (format_buy v) (Buys v) in
  let updates := updates ++ map (format_sell v) (Sells v) in
  let updates := updates ++ map (format_fill v) (Fills v) in
  updates.

(** The callback of [watch]: [db.bulkadd_into(updates, updates[0].pair)]. *)
Definition watch_callback (v : ExchangeStateUpdate) : callback_result :=
  let updates := formatUpdate v in
  match nth_error updates 0 with
  | None => TypeError
  | Some first => CallBulkaddInto updates (pair (fields first))
  end.

End Importer.

(** An update with one buy and one fill. *)
Definition sample_exchange_update : ExchangeStateUpdate :=
  {| MarketName := "BTC-NEO"; Nounce := Finite false 7 1;
     Buys := [{| Rate := Finite false 1 0; Quantity := Finite false 2 1;
                 Type_ := Zero |}];
     Sells := [];
     Fills := [{| OrderType := "SELL"; FillRate := Finite false 1 0;
                  FillQuantity := Finite false 5 0;
                  TimeStamp := "2017-11-07T01:02:03.45" |}] |}.

(* ------------------------------------------------------------------ *)
(** * Properties *)

(** ** The log of effects *)

Lemma written_app (l l' : list effect) :
  written (l ++ l') = written l ++ written l'.
Proof.
  induction l as [|e l IH]; simpl; [reflexivity|].
  destruct e; simpl; rewrite IH; reflexivity.
Qed.

Lemma cmds_app (es es' : list event) : cmds (es ++ es') = cmds es ++ cmds es'.
Proof.
  induction es as [|e es IH]; simpl; [reflexivity|].
  destruct e; simpl; rewrite ?IH; reflexivity.
Qed.

Lemma run_snoc (c : TectonicDB) (es : list event) (e : event) :
  run c (es ++ [e]) = step (run c es) e.
Proof. unfold run. rewrite fold_left_app. reflexivity. Qed.

Lemma run_cons (c : TectonicDB) (e : event) (es : list event) :
  run c (e :: es) = run (step c e) es.
Proof. reflexivity. Qed.

(** What [cmd] does, by the branch it takes. *)
Lemma cmd_sends (c : TectonicDB) (msg : string) :
  activeQuery c = None \/ initialized c = false ->
  fst (cmd c msg) =
    {| port := port c; address := address c;
       socketSendQueue := socketSendQueue c;
       activeQuery := Some {| message := msg; cb := promises c; onError := promises c |};
       initialized := initialized c;
       effects := effects c ++ [Write (msg ++ nl)];
       promises := S (promises c) |}.
Proof.
  intros H. unfold cmd. simpl.
  destruct (activeQuery c) as [q|]; destruct (initialized c);
    try reflexivity.
  destruct H; discriminate.
Qed.

Lemma cmd_queues (c : TectonicDB) (msg : string) (q : SocketQuery) :
  activeQuery c = Some q -> initialized c = true ->
  fst (cmd c msg) =
    {| port := port c; address := address c;
       socketSendQueue := socketSendQueue c
         ++ [{| message := msg; cb := promises c; onError := promises c |}];
       activeQuery := Some q;
       initialized := true;
       effects := effects c;
       promises := S (promises c) |}.
Proof.
  intros Ha Hi. unfold cmd. simpl. rewrite Ha, Hi. reflexivity.
Qed.

(** What the data handler leaves behind. *)
Lemma handleSocketData_effects (c : TectonicDB) (buf : list byte) :
  effects (handleSocketData c buf) =
    effects c
    ++ match activeQuery c with
       | Some q => [Resolve (cb q) (decode buf)]
       | None => []
       end
    ++ (if JS.endsWith buf "exit" then [Destroy] else []).
Proof.
  destruct c as [p a queue [q|] ini eff pr]; unfold handleSocketData; simpl;
    destruct (JS.endsWith buf "exit"); destruct queue; simpl;
    rewrite <- ?app_assoc, ?app_nil_r; reflexivity.
Qed.

Lemma handleSocketData_activeQuery (c : TectonicDB) (buf : list byte) :
  activeQuery (handleSocketData c buf) = hd_error (socketSendQueue c)
  /\ socketSendQueue (handleSocketData c buf) = tl (socketSendQueue c)
  /\ initialized (handleSocketData c buf) = initialized c
  /\ promises (handleSocketData c buf) = promises c.
Proof.
  destruct c as [p a queue [q|] ini eff pr]; unfold handleSocketData; simpl;
    destruct (JS.endsWith buf "exit"); destruct queue; simpl;
    repeat split; reflexivity.
Qed.

Lemma handleSocketData_written (c : TectonicDB) (buf : list byte) :
  written (effects (handleSocketData c buf)) = written (effects c).
Proof.
  rewrite handleSocketData_effects, !written_app.
  destruct (activeQuery c); destruct (JS.endsWith buf "exit"); simpl;
    rewrite ?app_nil_r; reflexivity.
Qed.

(* ------------------------------------------------------------------ *)
(** ** Frames *)


Lemma response_eta (r : TectonicResponse) :
  r = {| success := success r; data := data r |}.
Proof. destruct r; reflexivity. Qed.


(** Past a header of eight bytes, the ninth byte [len] bounds the text: the
    slice ends at offset [len + 12], three bytes past [9 + len]. *)
Lemma decode_data (hdr : list byte) (len : byte) (rest : list byte) :
  List.length hdr = 8 ->
  data (decode (hdr ++ len :: rest)) =
    JS.fromCharCode (firstn (Byte.to_nat len + 3) rest).
Proof.
  intros Hh.
  do 9 (destruct hdr as [|? hdr]; try discriminate Hh).
  unfold decode, JS.subarray. simpl.
  replace (Byte.to_nat len + 12 - 9) with (Byte.to_nat len + 3) by lia.
  reflexivity.
Qed.

(** A buffer that stops before the ninth byte has no length to read, and
    the text is empty. *)
Lemma decode_short (buf : list byte) :
  List.length buf <= 8 -> data (decode buf) = ""%string.
Proof.
  intros Hl.
  do 9 (destruct buf as [|? buf]; [reflexivity|]).
  simpl in Hl. lia.
Qed.

Lemma bytes_eqb_refl (l : list byte) : JS.bytes_eqb l l = true.
Proof.
  induction l as [|b l IH]; simpl; [reflexivity|].
  rewrite IH, (Byte.byte_dec_lb eq_refl). reflexivity.
Qed.

Lemma bytes_eqb_eq (a b : list byte) : JS.bytes_eqb a b = true -> a = b.
Proof.
  revert b; induction a as [|x a IH]; intros [|y b] H; simpl in H;
    try discriminate; [reflexivity|].
  apply andb_true_iff in H as [Hx Hab].
  apply Byte.byte_dec_bl in Hx. f_equal; auto.
Qed.

(** The test of the data handler holds exactly of the buffers whose last
    four bytes spell "exit". *)
Lemma endsWith_iff (buf : list byte) (suffix : string) :
  JS.endsWith buf suffix = true <->
  exists pre, buf = pre ++ list_byte_of_string suffix.
Proof.
  unfold JS.endsWith. split.
  - intros H. apply andb_true_iff in H as [Hl He].
    apply bytes_eqb_eq in He.
    set (n := List.length buf - List.length (list_byte_of_string suffix)) in *.
    exists (firstn n buf).
    rewrite <- He. symmetry. apply firstn_skipn.
  - intros [pre ->]. rewrite length_app.
    apply andb_true_iff. split.
    + apply Nat.leb_le. lia.
    + replace (List.length pre + List.length (list_byte_of_string suffix)
               - List.length (list_byte_of_string suffix))
        with (List.length pre + 0) by lia.
      rewrite skipn_app, skipn_all2 by lia.
      replace (List.length pre + 0 - List.length pre) with 0 by lia.
      simpl. apply bytes_eqb_refl.
Qed.

(** A frame as the handler reads it: the flag 1, seven bytes that are not
    looked at, the length byte, and a payload no longer than the slice the
    length allows. *)
Lemma decode_single_frame (hdr payload : list byte) (len : byte) :
  List.length hdr = 7 ->
  List.length payload <= Byte.to_nat len + 3 ->
  decode (x01 :: hdr ++ len :: payload) =
    {| success := true; data := JS.fromCharCode payload |}.
Proof.
  intros Hh Hl.
  rewrite (response_eta (decode _)). f_equal.
  change (x01 :: hdr ++ len :: payload) with ((x01 :: hdr) ++ len :: payload).
  rewrite decode_data by (simpl; lia).
  rewrite firstn_all2 by lia. reflexivity.
Qed.




(** C9: a data event whose buffer ends with the bytes of "exit" makes the
    client destroy the socket, after the response has been handed to the
    active query's callback (when there is an active query), and nothing
    else is done to the socket or the promises. *)
Theorem exit_reply_destroys_socket (c : TectonicDB) (buf : list byte) :
  JS.endsWith buf "exit" = true ->
  effects (handleSocketData c buf) =
    effects c
    ++ match activeQuery c with
       | Some q => [Resolve (cb q) (decode buf)]
       | None => []
       end
    ++ [Destroy].
Proof.
  intros H. rewrite handleSocketData_effects, H. reflexivity.
Qed.

Lemma exit_reply_destroys_socket_witness :
  effects (handleSocketData (fst (cmd idle "PING"))
             (list_byte_of_string "012345678exit")) =
    [Connect 9001 "localhost"; Write ("PING" ++ nl);
     Resolve 0 {| success := false; data := "exit" |}; Destroy].
Proof.
  apply (@exit_reply_destroys_socket (fst (cmd idle "PING"))
           (list_byte_of_string "012345678exit")).
  reflexivity.
Defined.

(* ------------------------------------------------------------------ *)
(** ** What reaches the socket *)

Lemma from_cmds_weaken (es : list event) (e : event) (c : TectonicDB) :
  from_cmds es c -> from_cmds (es ++ [e]) c.
Proof.
  intros (Hq & Ha & Hw). repeat split.
  - intros q Hin. apply in_or_app. left. auto.
  - intros q Hin. apply in_or_app. left. auto.
  - intros chunk Hin. destruct (Hw chunk Hin) as (msg & Hm & ->).
    exists msg. split; [apply in_or_app; left; assumption | reflexivity].
Qed.

Lemma from_cmds_step (es : list event) (e : event) (c : TectonicDB) :
  from_cmds es c -> from_cmds (es ++ [e]) (step c e).
Proof.
  intros H. apply (from_cmds_weaken e) in H.
  assert (Hlast : forall m, e = EvCmd m -> In (EvCmd m) (es ++ [e])).
  { intros m ->. apply in_or_app. right. left. reflexivity. }
  destruct H as (Hq & Ha & Hw).
  destruct e as [msg| |buf|err|]; simpl.
  - (* cmd *)
    specialize (Hlast msg eq_refl).
    destruct c as [p a queue [q0|] [|] eff pr]; unfold cmd; simpl in *;
      repeat split; simpl.
    + intros q Hin. apply in_app_or in Hin as [Hin|[<-|[]]]; auto.
    + intros q [= <-]. auto.
    + assumption.
    + assumption.
    + intros q [= <-]. exact Hlast.
    + intros chunk Hin. rewrite written_app in Hin.
      apply in_app_or in Hin as [Hin|[<-|[]]]; eauto.
    + assumption.
    + intros q [= <-]. exact Hlast.
    + intros chunk Hin. rewrite written_app in Hin.
      apply in_app_or in Hin as [Hin|[<-|[]]]; eauto.
    + assumption.
    + intros q [= <-]. exact Hlast.
    + intros chunk Hin. rewrite written_app in Hin.
      apply in_app_or in Hin as [Hin|[<-|[]]]; eauto.
  - (* connect *)
    destruct c as [p a [|q0 queue] act ini eff pr]; unfold on_connect;
      simpl in *; repeat split; simpl; auto.
    + intros q [= <-]. auto.
    + intros chunk Hin. rewrite written_app in Hin.
      apply in_app_or in Hin as [Hin|[<-|[]]]; eauto.
  - (* data *)
    destruct (handleSocketData_activeQuery c buf) as (Eact & Equeue & _).
    repeat split.
    + rewrite Equeue. intros q Hin. apply Hq.
      destruct (socketSendQueue c); [destruct Hin | right; exact Hin].
    + rewrite Eact. intros q Hhd. apply Hq.
      destruct (socketSendQueue c); simpl in Hhd;
        [discriminate | left; congruence].
    + rewrite handleSocketData_written. assumption.
  - (* error *)
    destruct c as [p a queue [q0|] ini eff pr]; unfold on_error;
      simpl in *; repeat split; simpl; auto.
    intros chunk Hin. rewrite written_app in Hin. simpl in Hin.
    rewrite app_nil_r in Hin. auto.
  - (* close *)
    repeat split; assumption.
Qed.

Lemma from_cmds_run (port_ : option N) (address_ : option string)
      (es : list event) :
  from_cmds es (run (new_TectonicDB port_ address_) es).
Proof.
  induction es as [|e es IH] using rev_ind.
  - repeat split; simpl; intros; try contradiction; discriminate.
  - rewrite run_snoc. apply from_cmds_step. exact IH.
Qed.

(** C10: [sendSocketMsg msg] gives the socket one chunk, the text [msg]
    followed by exactly one character, the newline (code 10), and touches
    nothing else; [cmd] writes nothing or that chunk for its argument; and
    whatever has been written by a client since its construction is the
    text of a command given to [cmd], followed by that one newline. *)
Theorem sendSocketMsg_writes_line :
  (forall c msg,
      sendSocketMsg c msg =
        {| port := port c; address := address c;
           socketSendQueue := socketSendQueue c;
           activeQuery := activeQuery c;
           initialized := initialized c;
           effects := effects c
                      ++ [Write (String.append msg (String "010" EmptyString))];
           promises := promises c |})
  /\ (forall c msg,
      effects (fst (cmd c msg)) = effects c
      \/ effects (fst (cmd c msg)) =
           effects c ++ [Write (String.append msg (String "010" EmptyString))])
  /\ (forall port_ address_ es chunk,
      In chunk (written (effects (run (new_TectonicDB port_ address_) es))) ->
      exists msg,
        In (EvCmd msg) es
        /\ chunk = String.append msg (String "010" EmptyString)
        /\ String.length chunk = S (String.length msg)).
Proof.
  split; [|split].
  - reflexivity.
  - intros c msg.
    destruct c as [p a queue [q0|] [|] eff pr]; unfold cmd; simpl; auto.
  - intros port_ address_ es chunk Hin.
    destruct (from_cmds_run port_ address_ es) as (_ & _ & Hw).
    destruct (Hw chunk Hin) as (msg & Hm & ->).
    exists msg. repeat split; auto.
    unfold nl. clear. induction msg as [|x msg IH]; simpl; [reflexivity|].
    rewrite IH. reflexivity.
Qed.

Lemma sendSocketMsg_writes_line_witness :
  exists msg,
    In (EvCmd msg) [EvCmd "PING"; EvConnect; EvData []; EvCmd "INFO"]
    /\ String "I" (String "N" (String "F" (String "O"
         (String "010" EmptyString)))) =
       String.append msg (String "010" EmptyString)
    /\ 5 = S (String.length msg).
Proof.
  apply (proj2 (proj2 sendSocketMsg_writes_line) None None
           [EvCmd "PING"; EvConnect; EvData []; EvCmd "INFO"]).
  simpl. right. left. reflexivity.
Defined.

(* ------------------------------------------------------------------ *)
(** ** The queue *)

Lemma forallb_firstn A (f : A -> bool) (k : nat) (l : list A) :
  forallb f l = true -> forallb f (firstn k l) = true.
Proof.
  revert l; induction k as [|k IH]; intros [|x l] H; simpl in *; auto.
  apply andb_true_iff in H as [Hx Hl]. rewrite Hx. simpl. auto.
Qed.

(** On a connected client a command is written only from a state with no
    active query, and a frame takes one command out of flight. *)
Lemma unanswered_invariant (es : list event) :
  forall c n,
    initialized c = true ->
    n <= 1 ->
    (activeQuery c = None -> n = 0) ->
    forallb is_cmd_or_data es = true ->
    unanswered c es n <= 1.
Proof.
  induction es as [|e es IH]; intros c n Hi Hn Hnone Hes; simpl.
  - exact Hn.
  - simpl in Hes. apply andb_true_iff in Hes as [He Hes].
    destruct e as [msg| |buf|err|]; simpl in He; try discriminate; simpl.
    + (* cmd *)
      destruct (activeQuery c) as [q|] eqn:Eact.
      * rewrite (@cmd_queues c msg q Eact Hi). simpl.
        rewrite Nat.sub_diag, Nat.add_0_r.
        apply IH; auto; discriminate.
      * rewrite (@cmd_sends c msg (or_introl Eact)). simpl.
        rewrite written_app, length_app. simpl.
        rewrite (Hnone eq_refl).
        replace (0 + (List.length (written (effects c)) + 1
                      - List.length (written (effects c)))) with 1 by lia.
        apply IH; auto; discriminate.
    + (* data *)
      rewrite handleSocketData_written, Nat.sub_diag, Nat.add_0_r.
      destruct (handleSocketData_activeQuery c buf) as (_ & _ & Ei & _).
      apply IH; auto; try lia. rewrite Ei. exact Hi.
Qed.

Lemma unanswered_app (es es' : list event) :
  forall c n,
    unanswered c (es ++ es') n = unanswered (run c es) es' (unanswered c es n).
Proof.
  induction es as [|e es IH]; intros c n; simpl; [reflexivity|].
  rewrite IH. reflexivity.
Qed.

Lemma cmds_firstn_nil (k : nat) (es : list event) :
  cmds es = [] -> cmds (firstn k es) = [].
Proof.
  revert es; induction k as [|k IH]; intros [|e es] H; simpl; auto.
  destruct e; simpl in *; try discriminate; auto.
Qed.

(** A client that has been given no command has written nothing and holds
    no query, whatever the socket has done. *)
Lemma no_command_nothing_in_flight (es : list event) :
  forall c,
    cmds es = [] ->
    activeQuery c = None ->
    socketSendQueue c = [] ->
    unanswered c es 0 = 0
    /\ activeQuery (run c es) = None
    /\ socketSendQueue (run c es) = [].
Proof.
  induction es as [|e es IH]; intros c Hc Ha Hq; [simpl; auto|].
  assert (Hstep : List.length (written (effects (step c e)))
                  - List.length (written (effects c)) = 0
                  /\ activeQuery (step c e) = None
                  /\ socketSendQueue (step c e) = []
                  /\ cmds es = []).
  { destruct c as [p a queue act ini eff pr]. simpl in Ha, Hq. subst act queue.
    destruct e as [msg| |buf|err|]; simpl in Hc; try discriminate;
      simpl; unfold on_connect, handleSocketData, on_error, on_close; simpl;
      try destruct (JS.endsWith buf "exit"); simpl;
      rewrite ?written_app; simpl; rewrite ?app_nil_r, Nat.sub_diag; auto. }
  destruct Hstep as (Hw & Ha' & Hq' & Hc').
  simpl unanswered. rewrite Hw, run_cons.
  replace ((if is_data e then pred 0 else 0) + 0) with 0
    by (destruct (is_data e); reflexivity).
  simpl Nat.pred.
  replace ((if is_data e then 0 else 0) + 0) with 0
    by (destruct (is_data e); reflexivity).
  apply IH; assumption.
Qed.

Lemma on_connect_initialized (c : TectonicDB) :
  initialized (on_connect c) = true.
Proof.
  destruct c as [p a [|q0 queue] act ini eff pr]; reflexivity.
Qed.

(** C1, as the code has it.  Take a client at any point of its life where
    it is Connected and, of the commands written since its construction, at
    most one is unanswered, and none if no query is active (so it is after
    the connect callback of a client that was given no command before).
    Then over every sequence of [cmd] calls and data events that follows,
    and at every point of it, at most one command is written and
    unanswered.  [cmd] makes its query active and writes it when no query
    is active or the client is not yet Connected, and queues it otherwise;
    a data event writes nothing and is the one of the two events that makes
    the head of the queue the active query. *)
Theorem single_active_query_once_connected :
  (forall port_ address_ history es k,
      let c0 := new_TectonicDB port_ address_ in
      initialized (run c0 history) = true ->
      in_flight c0 history <= 1 ->
      (activeQuery (run c0 history) = None -> in_flight c0 history = 0) ->
      forallb is_cmd_or_data es = true ->
      in_flight c0 (history ++ firstn k es) <= 1)
  /\ (forall port_ address_ before es k,
      cmds before = [] ->
      forallb is_cmd_or_data es = true ->
      in_flight (new_TectonicDB port_ address_)
                (firstn k (before ++ EvConnect :: es)) <= 1)
  /\ (forall c msg,
      activeQuery c = None \/ initialized c = false ->
      activeQuery (fst (cmd c msg)) = Some (query msg (promises c))
      /\ socketSendQueue (fst (cmd c msg)) = socketSendQueue c
      /\ effects (fst (cmd c msg)) = effects c ++ [Write (String.append msg nl)])
  /\ (forall c msg q,
      activeQuery c = Some q -> initialized c = true ->
      activeQuery (fst (cmd c msg)) = Some q
      /\ socketSendQueue (fst (cmd c msg)) =
           socketSendQueue c ++ [query msg (promises c)]
      /\ effects (fst (cmd c msg)) = effects c)
  /\ (forall c buf,
      activeQuery (handleSocketData c buf) = hd_error (socketSendQueue c)
      /\ socketSendQueue (handleSocketData c buf) = tl (socketSendQueue c)
      /\ written (effects (handleSocketData c buf)) = written (effects c)).
Proof.
  assert (General : forall port_ address_ history es k,
             initialized (run (new_TectonicDB port_ address_) history) = true ->
             in_flight (new_TectonicDB port_ address_) history <= 1 ->
             (activeQuery (run (new_TectonicDB port_ address_) history) = None ->
              in_flight (new_TectonicDB port_ address_) history = 0) ->
             forallb is_cmd_or_data es = true ->
             in_flight (new_TectonicDB port_ address_)
                       (history ++ firstn k es) <= 1).
  { intros port_ address_ history es k Hi Hn Hnone Hes.
    unfold in_flight in *. rewrite unanswered_app.
    apply unanswered_invariant; auto.
    apply forallb_firstn. exact Hes. }
  split; [exact General|]. split; [|split; [|split]].
  - intros port_ address_ before es k Hb Hes.
    rewrite firstn_app.
    destruct (k - List.length before) as [|j] eqn:Ek.
    + simpl. rewrite app_nil_r. unfold in_flight.
      destruct (@no_command_nothing_in_flight (firstn k before)
                  (new_TectonicDB port_ address_)) as (E & _);
        try reflexivity.
      * apply cmds_firstn_nil. exact Hb.
      * rewrite E. lia.
    + rewrite firstn_all2 by lia. simpl firstn.
      change (before ++ EvConnect :: firstn j es)
        with (before ++ [EvConnect] ++ firstn j es).
      rewrite app_assoc.
      destruct (@no_command_nothing_in_flight (before ++ [EvConnect])
                  (new_TectonicDB port_ address_)) as (E1 & E2 & _);
        try reflexivity.
      * rewrite cmds_app, Hb. reflexivity.
      * apply General; auto.
        -- rewrite run_snoc. apply on_connect_initialized.
        -- unfold in_flight. rewrite E1. lia.
  - intros c msg H. rewrite (@cmd_sends c msg H). simpl. auto.
  - intros c msg q Ha Hi. rewrite (@cmd_queues c msg q Ha Hi). simpl. auto.
  - intros c buf.
    destruct (handleSocketData_activeQuery c buf) as (E1 & E2 & _).
    rewrite handleSocketData_written. auto.
Qed.

Lemma single_active_query_once_connected_witness :
  in_flight (new_TectonicDB None None)
    ([EvCmd "A"; EvConnect; EvData ok_frame]
     ++ firstn 4 [EvCmd "B"; EvCmd "C"; EvData []; EvCmd "D"; EvData []])
  <= 1
  /\ in_flight (new_TectonicDB None None)
       (firstn 6 ([EvData []; EvError "ECONNREFUSED"]
                  ++ EvConnect
                  :: [EvCmd "A"; EvCmd "B"; EvData []; EvCmd "C"; EvData []]))
     <= 1.
Proof.
  split.
  - apply (proj1 single_active_query_once_connected None None
             [EvCmd "A"; EvConnect; EvData ok_frame]
             [EvCmd "B"; EvCmd "C"; EvData []; EvCmd "D"; EvData []] 4).
    + reflexivity.
    + vm_compute. lia.
    + reflexivity.
    + reflexivity.
  - apply (proj1 (proj2 single_active_query_once_connected) None None
             [EvData []; EvError "ECONNREFUSED"]
             [EvCmd "A"; EvCmd "B"; EvData []; EvCmd "C"; EvData []] 6);
      reflexivity.
Defined.

(** C1 as stated fails before the connection is up: two commands given to a
    client that has not connected are both written, the second one from a
    state that has an active query, and two commands are unanswered at
    once. *)
Lemma two_commands_in_flight_before_connect :
  let c0 := new_TectonicDB None None in
  let c1 := run c0 [EvCmd "A"] in
  let c2 := run c0 [EvCmd "A"; EvCmd "B"] in
  activeQuery c1 = Some (query "A" 0)
  /\ written (effects c1) = [String.append "A" nl]
  /\ activeQuery c2 = Some (query "B" 1)
  /\ written (effects c2) = [String.append "A" nl; String.append "B" nl]
  /\ in_flight c0 [EvCmd "A"; EvCmd "B"] = 2
  /\ ~ in_flight c0 [EvCmd "A"; EvCmd "B"] <= 1.
Proof.
  repeat split; try reflexivity.
  change (in_flight (new_TectonicDB None None) [EvCmd "A"; EvCmd "B"]) with 2.
  lia.
Qed.

(** Commands given to a connected client that has an active query are
    queued, whatever their number. *)
Lemma cmds_queue_behind_active (msgs : list string) :
  forall c q,
    activeQuery c = Some q -> initialized c = true ->
    activeQuery (run c (map EvCmd msgs)) = Some q
    /\ initialized (run c (map EvCmd msgs)) = true
    /\ effects (run c (map EvCmd msgs)) = effects c.
Proof.
  induction msgs as [|m msgs IH]; intros c q Ha Hi; simpl map.
  - simpl. auto.
  - rewrite run_cons. simpl step.
    destruct (IH (fst (cmd c m)) q) as (E1 & E2 & E3);
      try (rewrite (@cmd_queues c m q Ha Hi); reflexivity).
    rewrite E1, E2, E3, (@cmd_queues c m q Ha Hi). auto.
Qed.

Lemma data_events_write_nothing (bufs : list (list byte)) :
  forall c, written (effects (run c (map EvData bufs))) = written (effects c).
Proof.
  induction bufs as [|buf bufs IH]; intros c; simpl map; [reflexivity|].
  rewrite run_cons, IH. simpl. apply handleSocketData_written.
Qed.

Lemma run_app (c : TectonicDB) (es es' : list event) :
  run c (es ++ es') = run (run c es) es'.
Proof. unfold run. apply fold_left_app. Qed.

(** C2, where the code departs from it: of the commands given one after the
    other to an idle connected client only the first is ever written,
    however many frames arrive; the data handler makes the next queued query
    active without writing it. *)
Theorem queued_commands_are_never_written
        (m : string) (ms : list string) (bufs : list (list byte)) :
  written (effects (run idle (map EvCmd (m :: ms) ++ map EvData bufs))) =
    [String.append m nl].
Proof.
  rewrite run_app, data_events_write_nothing. simpl map. rewrite run_cons.
  destruct (@cmds_queue_behind_active ms (step idle (EvCmd m)) (query m 0))
    as (_ & _ & E); try reflexivity.
  rewrite E. reflexivity.
Qed.

(** The same on two commands and two frames: "B" is never written, and the
    second frame is handed to the caller of "B". *)
Example second_command_answered_unsent :
  let ok := [x01; x00; x00; x00; x00; x00; x00; x00; x02; "O"%byte; "K"%byte] in
  let c := run idle [EvCmd "A"; EvCmd "B"; EvData ok] in
  effects c = [Connect 9001 "localhost"; Write (String.append "A" nl);
               Resolve 0 {| success := true; data := "OK" |}]
  /\ activeQuery c = Some (query "B" 1)
  /\ socketSendQueue c = []
  /\ effects (run c [EvData ok]) =
       [Connect 9001 "localhost"; Write (String.append "A" nl);
        Resolve 0 {| success := true; data := "OK" |};
        Resolve 1 {| success := true; data := "OK" |}].
Proof. repeat split; reflexivity. Qed.

(* ------------------------------------------------------------------ *)
(** ** Before the connection is up *)

(** Until the socket has connected every command is written at once. *)
Lemma cmds_before_connect (msgs : list string) :
  forall c,
    initialized c = false ->
    initialized (run c (map EvCmd msgs)) = false
    /\ socketSendQueue (run c (map EvCmd msgs)) = socketSendQueue c
    /\ effects (run c (map EvCmd msgs)) =
         effects c ++ map (fun m => Write (String.append m nl)) msgs.
Proof.
  induction msgs as [|m msgs IH]; intros c Hi; simpl map.
  - simpl. rewrite app_nil_r. auto.
  - rewrite run_cons. simpl step.
    pose proof (@cmd_sends c m (or_intror Hi)) as E.
    destruct (IH (fst (cmd c m))) as (E1 & E2 & E3).
    { rewrite E. exact Hi. }
    rewrite E1, E2, E3, E. simpl. rewrite <- app_assoc. auto.
Qed.

Lemma written_writes (msgs : list string) :
  written (map (fun m => Write (String.append m nl)) msgs) =
    map (fun m => String.append m nl) msgs.
Proof.
  induction msgs as [|m msgs IH]; simpl; [reflexivity|].
  rewrite IH. reflexivity.
Qed.

(** C3, as the code has it: [cmd] writes its command at once and makes it
    the active query when no query is active or the client has not reached
    Connected, and appends it to the tail of the queue only when a query is
    active on a Connected client.  So the commands given before Connected
    are each handed to the socket once, when they are given; the queue is
    empty when the socket connects, and connecting writes nothing more. *)
Theorem cmd_sends_unless_busy_and_connected :
  (forall c msg,
      activeQuery c = None \/ initialized c = false ->
      fst (cmd c msg) =
        sendSocketMsg (set_activeQuery (fst (new_promise c))
                                       (Some (query msg (promises c)))) msg)
  /\ (forall c msg q,
      activeQuery c = Some q -> initialized c = true ->
      fst (cmd c msg) =
        set_socketSendQueue (fst (new_promise c))
          (socketSendQueue c ++ [query msg (promises c)]))
  /\ (forall port_ address_ msgs,
      let c0 := new_TectonicDB port_ address_ in
      let c := run c0 (map EvCmd msgs) in
      written (effects c) = map (fun m => String.append m nl) msgs
      /\ socketSendQueue c = []
      /\ initialized c = false
      /\ initialized (on_connect c) = true
      /\ effects (on_connect c) = effects c).
Proof.
  split; [|split].
  - intros c msg H. rewrite (@cmd_sends c msg H). reflexivity.
  - intros c msg q Ha Hi. rewrite (@cmd_queues c msg q Ha Hi).
    unfold set_socketSendQueue. simpl. rewrite Ha, Hi. reflexivity.
  - intros port_ address_ msgs c0 c.
    destruct (@cmds_before_connect msgs c0 eq_refl) as (E1 & E2 & E3).
    fold c in E1, E2, E3. simpl in E2.
    assert (Hc : on_connect c = set_initialized c true).
    { unfold on_connect. simpl. rewrite E2. reflexivity. }
    rewrite Hc, E3. simpl. rewrite written_writes. auto.
Qed.

Lemma cmd_sends_unless_busy_and_connected_witness :
  fst (cmd (new_TectonicDB None None) "PING") =
    sendSocketMsg
      (set_activeQuery (fst (new_promise (new_TectonicDB None None)))
                       (Some (query "PING" 0))) "PING"
  /\ fst (cmd (fst (cmd idle "PING")) "INFO") =
       set_socketSendQueue (fst (new_promise (fst (cmd idle "PING"))))
                           [query "INFO" 1].
Proof.
  split.
  - apply (proj1 cmd_sends_unless_busy_and_connected
             (new_TectonicDB None None) "PING").
    right. reflexivity.
  - apply (proj1 (proj2 cmd_sends_unless_busy_and_connected)
             (fst (cmd idle "PING")) "INFO" (query "PING" 0)); reflexivity.
Defined.

(** C3 as stated fails: a command given before the socket has connected is
    written to the socket at once, where the spec's [submit] queues it; the
    connect callback then finds an empty queue and writes nothing. *)
Lemma command_before_connect_is_written_at_once :
  let c0 := new_TectonicDB None None in
  let c := fst (cmd c0 "PING") in
  initialized c0 = false
  /\ effects c = [Connect 9001 "localhost"; Write (String.append "PING" nl)]
  /\ socketSendQueue c = []
  /\ effects (on_connect c) = effects c
  /\ effects (fst (submit_spec c0 "PING")) = [Connect 9001 "localhost"]
  /\ socketSendQueue (fst (submit_spec c0 "PING")) = [query "PING" 0]
  /\ fst (cmd c0 "PING") <> fst (submit_spec c0 "PING").
Proof.
  repeat split; try reflexivity. discriminate.
Qed.

(* ------------------------------------------------------------------ *)
(** ** Socket errors *)

(** C5, as the code has it: a socket error while a query is active calls
    that query's [onError] with the error and changes nothing else, so the
    query stays the active query and the queue is left as it is; with no
    active query the error is dropped. *)
Theorem socket_error_rejects_active_query (c : TectonicDB) (err : SocketError) :
  effects (on_error c err) =
    effects c ++ match activeQuery c with
                 | Some q => [Reject (onError q) err]
                 | None => []
                 end
  /\ activeQuery (on_error c err) = activeQuery c
  /\ socketSendQueue (on_error c err) = socketSendQueue c
  /\ initialized (on_error c err) = initialized c
  /\ written (effects (on_error c err)) = written (effects c)
  /\ (activeQuery c = None -> on_error c err = c).
Proof.
  unfold on_error. destruct (activeQuery c) as [q|] eqn:Ea; simpl.
  - rewrite written_app. simpl. rewrite app_nil_r.
    repeat split; auto. discriminate.
  - rewrite app_nil_r. repeat split; auto.
Qed.

(** C5 as stated fails: after an error the rejected query is still the
    active one, the queued command stays queued and unwritten, and a later
    command is queued behind it. *)
Lemma socket_error_leaves_query_active :
  let c := run idle [EvCmd "A"; EvCmd "B"] in
  let c' := on_error c "ECONNRESET" in
  activeQuery c = Some (query "A" 0)
  /\ effects c' = effects c ++ [Reject 0 "ECONNRESET"]
  /\ activeQuery c' = Some (query "A" 0)
  /\ activeQuery c' <> None
  /\ socketSendQueue c' = [query "B" 1]
  /\ written (effects c') = [String.append "A" nl]
  /\ socketSendQueue (fst (cmd c' "C")) = [query "B" 1; query "C" 2].
Proof.
  repeat split; try reflexivity. discriminate.
Qed.

(* ------------------------------------------------------------------ *)
(** ** Awaited commands *)

Lemma exchanges_app server (msgs msgs' : list string) :
  forall p,
    exchanges server p (msgs ++ msgs') =
      exchanges server p msgs ++ exchanges server (p + List.length msgs) msgs'.
Proof.
  induction msgs as [|m msgs IH]; intros p; simpl.
  - rewrite Nat.add_0_r. reflexivity.
  - rewrite IH, <- app_assoc.
    replace (p + S (List.length msgs)) with (S p + List.length msgs) by lia.
    reflexivity.
Qed.

Lemma written_exchanges server (msgs : list string) :
  forall p,
    written (exchanges server p msgs) = map (fun m => String.append m nl) msgs.
Proof.
  induction msgs as [|m msgs IH]; intros p; simpl; [reflexivity|].
  f_equal. destruct (JS.endsWith (server p m) "exit"); simpl; apply IH.
Qed.

Lemma known_mono (n m : nat) (e : effect) :
  n <= m -> known n e = true -> known m e = true.
Proof.
  intros Hle. destruct e; simpl; auto; intros H;
    apply Nat.ltb_lt in H; apply Nat.ltb_lt; lia.
Qed.

Lemma known_all_mono (n m : nat) (l : list effect) :
  forallb (known n) l = true -> n <= m -> forallb (known m) l = true.
Proof.
  intros H Hle. apply forallb_forall. intros e He.
  apply (@known_mono n m); [exact Hle|].
  revert e He. apply forallb_forall. exact H.
Qed.

Lemma settled_fresh (l l' : list effect) (p : promise) :
  forallb (known p) l = true -> settled (l ++ l') p = settled l' p.
Proof.
  induction l as [|e l IH]; simpl; [reflexivity|]. intros H.
  apply andb_true_iff in H as [He Hl].
  destruct e as [| | |q res|q err]; simpl in *; auto;
    apply Nat.ltb_lt in He;
    (destruct (Nat.eqb_spec q p); [lia | auto]).
Qed.

Lemma for_of_cons A (x : A) (l : list A) (body : A -> async unit) :
  for_of (x :: l) body = let* _ := body x in for_of l body.
Proof. reflexivity. Qed.

Section Drive.

Variable server : promise -> string -> list byte.

Lemma drive_bind A B (m : async A) (f : A -> async B) :
    forall c,
      drive server (bind m f) c =
        match drive server m c with
        | (c1, Returned a) => drive server (f a) c1
        | (c1, Thrown e) => (c1, Thrown e)
        | (c1, Pending) => (c1, Pending)
        end.
  Proof.
    induction m as [a|e|msg k IH]; intros c; simpl; try reflexivity.
    destruct (cmd c msg) as [c1 p].
    destruct (settled (effects (handleSocketData c1 (server p msg))) p)
      as [[res|err]|]; auto.
  Qed.

  (** On an idle client an awaited command is written at once and the frame
      that follows resumes the caller; the client is idle again. *)
Lemma drive_await_cmd (msg : string) (c : TectonicDB) :
    is_idle c = true ->
    let buf := server (promises c) msg in
    let r := drive server (await_cmd msg) c in
    snd r = Returned (decode buf)
    /\ is_idle (fst r) = true
    /\ effects (fst r) = effects c ++ exchange (promises c) msg buf
    /\ promises (fst r) = S (promises c).
  Proof.
    destruct c as [p a queue act ini eff pr]. unfold is_idle. simpl.
    intros H. apply andb_true_iff in H as [H Hk].
    apply andb_true_iff in H as [H Hq].
    apply andb_true_iff in H as [Hi Ha].
    destruct queue; [|discriminate]. destruct act; [discriminate|].
    subst ini. clear Hq Ha.
    assert (Hk' : forallb (known (S pr)) eff = true)
      by (apply (@known_all_mono pr (S pr) eff Hk); lia).
    assert (Hlt : (pr <? S pr)%nat = true) by (apply Nat.ltb_lt; lia).
    unfold cmd, handleSocketData, exchange. simpl.
    destruct (JS.endsWith (server pr msg) "exit"); simpl;
      rewrite <- !app_assoc; simpl;
      rewrite (@settled_fresh eff _ pr Hk); simpl; rewrite Nat.eqb_refl; simpl;
      (repeat split; try reflexivity);
      rewrite <- ?app_assoc; simpl; try reflexivity;
      rewrite forallb_app, Hk'; simpl; rewrite Hlt; reflexivity.
  Qed.

Lemma drive_rows (updates : list DBUpdate) :
    forall c,
      is_idle c = true ->
      let r := drive server
                 (for_of updates
                    (fun u => let* _ := await_cmd (bulk_row u) in Return tt)) c in
      snd r = Returned tt
      /\ is_idle (fst r) = true
      /\ effects (fst r) =
           effects c ++ exchanges server (promises c) (map bulk_row updates)
      /\ promises (fst r) = promises c + List.length updates.
  Proof.
    induction updates as [|u updates IH]; intros c Hc.
    - simpl. rewrite app_nil_r, Nat.add_0_r. auto.
    - cbv zeta. rewrite for_of_cons, !drive_bind.
      destruct (@drive_await_cmd (bulk_row u) c Hc) as (E1 & E2 & E3 & E4).
      destruct (drive server (await_cmd (bulk_row u)) c) as [c1 o].
      simpl in E1, E2, E3, E4. subst o. simpl.
      destruct (IH c1 E2) as (F1 & F2 & F3 & F4).
      simpl in F1, F2, F3, F4 |- *.
      rewrite F3, F4, E3, E4, <- app_assoc.
      repeat split; auto; lia.
  Qed.

  (** The three steps of [bulkadd] and [bulkadd_into], for any opener. *)
Lemma drive_bulk (opener : string) (updates : list DBUpdate) (c : TectonicDB) :
    is_idle c = true ->
    let lines := opener :: map bulk_row updates ++ ["DDAKLUB"%string] in
    let r := drive server
               (let* _ := await_cmd opener in
                let* _ := for_of updates
                            (fun u => let* _ := await_cmd (bulk_row u) in
                                      Return tt) in
                let* r := await_cmd "DDAKLUB" in
                Return r) c in
    snd r = Returned (decode (server (promises c + List.length updates + 1)
                                     "DDAKLUB"))
    /\ is_idle (fst r) = true
    /\ effects (fst r) = effects c ++ exchanges server (promises c) lines.
  Proof.
    intros Hc. cbv zeta.
    rewrite drive_bind.
    destruct (@drive_await_cmd opener c Hc) as (E1 & E2 & E3 & E4).
    destruct (drive server (await_cmd opener) c) as [c1 o].
    simpl in E1, E2, E3, E4. subst o.
    rewrite drive_bind.
    destruct (@drive_rows updates c1 E2) as (F1 & F2 & F3 & F4).
    destruct (drive server (for_of updates _) c1) as [c2 o].
    simpl in F1, F2, F3, F4. subst o.
    rewrite drive_bind.
    destruct (@drive_await_cmd "DDAKLUB" c2 F2) as (G1 & G2 & G3 & G4).
    destruct (drive server (await_cmd "DDAKLUB") c2) as [c3 o].
    simpl in G1, G2, G3, G4. subst o. simpl.
    rewrite G3, F3, E3, F4, E4, exchanges_app, length_map.
    replace (S (promises c) + List.length updates)
      with (promises c + List.length updates + 1) by lia.
    simpl. rewrite <- !app_assoc.
    replace (S (promises c + List.length updates))
      with (promises c + List.length updates + 1) by lia.
    repeat split; auto.
    rewrite app_nil_r. reflexivity.
  Qed.

End Drive.

(* ------------------------------------------------------------------ *)
(** ** Bulk inserts *)

(** C6: on an idle connected client whose server answers every command,
    [bulkadd] of N records, and [bulkadd_into] with a table name, give the
    socket exactly N + 2 lines, in order: the opener ("BULKADD", or
    "BULKADD INTO " and the table), one row per record, then "DDAKLUB".
    Each line is followed in the log by the call of its own promise's
    [resolve] before the next line is written: every step is awaited.  A
    row is the text of [add] without its leading "ADD ". *)
Theorem bulkadd_sends_opener_rows_terminator
        (server : promise -> string -> list byte)
        (updates : list DBUpdate) (db : string) (c : TectonicDB) :
  is_idle c = true ->
  let lines := "BULKADD"%string :: map bulk_row updates ++ ["DDAKLUB"%string] in
  let lines_into :=
    String.append "BULKADD INTO " db
    :: map bulk_row updates ++ ["DDAKLUB"%string] in
  let r := drive server (bulkadd updates) c in
  let r_into := drive server (bulkadd_into updates db) c in
  List.length lines = List.length updates + 2
  /\ List.length lines_into = List.length updates + 2
  /\ effects (fst r) = effects c ++ exchanges server (promises c) lines
  /\ written (effects (fst r)) =
       written (effects c) ++ map (fun m => String.append m nl) lines
  /\ snd r = Returned (decode (server (promises c + List.length updates + 1)
                                      "DDAKLUB"))
  /\ effects (fst r_into) =
       effects c ++ exchanges server (promises c) lines_into
  /\ written (effects (fst r_into)) =
       written (effects c) ++ map (fun m => String.append m nl) lines_into
  /\ snd r_into = Returned (decode (server (promises c + List.length updates + 1)
                                           "DDAKLUB"))
  /\ (forall u,
        add u = let* r := await_cmd (String.append "ADD " (bulk_row u)) in
                Return r).
Proof.
  intros Hc lines lines_into r r_into.
  destruct (@drive_bulk server "BULKADD" updates c Hc) as (E1 & _ & E3).
  destruct (@drive_bulk server (String.append "BULKADD INTO " db) updates c Hc)
    as (F1 & _ & F3).
  fold lines in E3. fold lines_into in F3.
  change (effects (fst r) = effects c ++ exchanges server (promises c) lines)
    in E3.
  change (effects (fst r_into) =
            effects c ++ exchanges server (promises c) lines_into) in F3.
  assert (Hlen : forall opener,
             List.length (opener :: map bulk_row updates ++ ["DDAKLUB"%string])
             = List.length updates + 2).
  { intros opener. simpl. rewrite length_app, length_map. simpl. lia. }
  repeat split.
  - apply Hlen.
  - apply Hlen.
  - exact E3.
  - rewrite E3, written_app, written_exchanges. reflexivity.
  - exact E1.
  - exact F3.
  - rewrite F3, written_app, written_exchanges. reflexivity.
  - exact F1.
Qed.

Lemma bulkadd_sends_opener_rows_terminator_witness :
  written (effects (fst (drive (fun _ _ => ok_frame)
                               (bulkadd_into [sample_update; sample_update]
                                             "default") idle))) =
    [String.append "BULKADD INTO default" nl;
     String.append "100, 0, t, t, 0.1, 0.1;" nl;
     String.append "100, 0, t, t, 0.1, 0.1;" nl;
     String.append "DDAKLUB" nl].
Proof.
  exact (proj1 (proj2 (proj2 (proj2 (proj2 (proj2 (proj2
    (@bulkadd_sends_opener_rows_terminator (fun _ _ => ok_frame)
       [sample_update; sample_update] "default" idle eq_refl)))))))).
Defined.

(* ------------------------------------------------------------------ *)
(** ** One insert, end to end *)

Lemma ok_frame_does_not_exit (hdr : list byte) :
  List.length hdr = 7 ->
  JS.endsWith (x01 :: hdr ++ [x02; "O"%byte; "K"%byte]) "exit" = false.
Proof.
  intros Hh.
  do 8 (destruct hdr as [|? hdr]; try discriminate Hh).
  unfold JS.endsWith. simpl. apply andb_false_r.
Qed.

(** C7: [add] of the record (timestamp 100, seq 0, trade, bid, price 0.1,
    size 0.1) on an idle connected client writes the line
    "ADD 100, 0, t, t, 0.1, 0.1;" (with the newline of [sendSocketMsg]) and
    nothing else, and the reply made of the byte 1, seven more header bytes,
    the length 2 and the bytes of "OK" resolves the caller's promise with
    success and the text "OK", which is what [add] returns. *)
Theorem add_end_to_end
        (server : promise -> string -> list byte)
        (c : TectonicDB) (hdr : list byte) (table : string) :
  is_idle c = true ->
  List.length hdr = 7 ->
  server (promises c) "ADD 100, 0, t, t, 0.1, 0.1;" =
    x01 :: hdr ++ [x02; "O"%byte; "K"%byte] ->
  let update :=
    {| pair := table; seq := Zero; is_trade := true; is_bid := true;
       price := Finite false 1 0; size := Finite false 1 0;
       timestamp := Finite false 1 3 |} in
  let r := drive server (add update) c in
  effects (fst r) =
    effects c ++ [Write (String.append "ADD 100, 0, t, t, 0.1, 0.1;" nl);
                  Resolve (promises c) {| success := true; data := "OK" |}]
  /\ snd r = Returned {| success := true; data := "OK" |}
  /\ is_idle (fst r) = true.
Proof.
  intros Hc Hh Hs update r. subst r.
  change (add update)
    with (let* r := await_cmd "ADD 100, 0, t, t, 0.1, 0.1;" in Return r).
  rewrite drive_bind.
  destruct (@drive_await_cmd server "ADD 100, 0, t, t, 0.1, 0.1;" c Hc)
    as (E1 & E2 & E3 & _).
  destruct (drive server (await_cmd "ADD 100, 0, t, t, 0.1, 0.1;") c)
    as [c1 o].
  simpl in E1, E2, E3. subst o. simpl.
  rewrite Hs in *.
  assert (Hd : decode (x01 :: hdr ++ [x02; "O"%byte; "K"%byte]) =
               {| success := true; data := "OK" |}).
  { apply decode_single_frame; [exact Hh | simpl; lia]. }
  unfold exchange in E3.
  rewrite (ok_frame_does_not_exit hdr Hh), Hd in E3.
  rewrite Hd. auto.
Qed.

Lemma add_end_to_end_witness :
  snd (drive (fun _ _ => ok_frame) (add sample_update) idle) =
    Returned {| success := true; data := "OK" |}.
Proof.
  exact (proj1 (proj2
    (@add_end_to_end (fun _ _ => ok_frame) idle
       [x00; x00; x00; x00; x00; x00; x00] "default"
       eq_refl eq_refl eq_refl))).
Defined.

(* ------------------------------------------------------------------ *)
(** ** Queries *)

Section QueryResults.

Variable json : Type.
Variable JSON_parse : string -> option json.

Lemma drive_parse server (text : string) (c : TectonicDB) :
    drive server (parse JSON_parse text) c = (c, parsed JSON_parse text).
  Proof.
    unfold parse, parsed. destruct (JSON_parse text); reflexivity.
  Qed.

  (** C8: the frame delivered to [get n] or [getall] decides the result: with
      the success flag set the payload goes through [JSON.parse] and the
      parsed structure is returned (an exception of [JSON.parse] is thrown
      on); with the flag clear [get n] returns the payload string as it is
      and [getall] returns null. *)
Theorem get_and_getall_results
          (server : promise -> string -> list byte)
          (n : number) (c : TectonicDB) :
    is_idle c = true ->
    let text := String.append "GET " (String.append (JS.toString n) " AS JSON") in
    let res := decode (server (promises c) text) in
    let res_all := decode (server (promises c) "GET ALL AS JSON") in
    get JSON_parse n =
      Await text (fun r => if success r then parse JSON_parse (data r)
                           else Return (Raw (data r)))
    /\ getall JSON_parse =
         Await "GET ALL AS JSON"
               (fun r => if success r then parse JSON_parse (data r)
                         else Return Null)
    /\ snd (drive server (get JSON_parse n) c) =
         (if success res then parsed JSON_parse (data res)
          else Returned (Raw (data res)))
    /\ snd (drive server (getall JSON_parse) c) =
         (if success res_all then parsed JSON_parse (data res_all)
          else Returned Null)
    /\ written (effects (fst (drive server (get JSON_parse n) c))) =
         written (effects c) ++ [String.append text nl]
    /\ written (effects (fst (drive server (getall JSON_parse) c))) =
         written (effects c) ++ [String.append "GET ALL AS JSON" nl].
  Proof.
    intros Hc text res res_all.
    assert (Hw : forall p msg buf,
               written (exchange p msg buf) = [String.append msg nl]).
    { intros p msg buf. unfold exchange.
      destruct (JS.endsWith buf "exit"); reflexivity. }
    split; [reflexivity|]. split; [reflexivity|].
    unfold get, getall. fold text. rewrite !drive_bind.
    destruct (@drive_await_cmd server text c Hc) as (E1 & _ & E3 & _).
    destruct (@drive_await_cmd server "GET ALL AS JSON" c Hc)
      as (F1 & _ & F3 & _).
    destruct (drive server (await_cmd text) c) as [c1 o1].
    destruct (drive server (await_cmd "GET ALL AS JSON") c) as [c2 o2].
    simpl in E1, E3, F1, F3. subst o1 o2. fold res. fold res_all.
    destruct (success res); destruct (success res_all);
      rewrite ?drive_parse; simpl;
      rewrite E3, F3, !written_app, !Hw; auto.
  Qed.

End QueryResults.

Lemma get_and_getall_results_witness :
  snd (drive (fun _ _ => [x01; x00; x00; x00; x00; x00; x00; x00; x03;
                          "["%byte; "1"%byte; "]"%byte])
             (get toy_parse (Finite false 5 1)) idle) =
    Returned (Parsed [1])
  /\ snd (drive (fun _ _ => [x00; x00; x00; x00; x00; x00; x00; x00; x03;
                             "E"%byte; "R"%byte; "R"%byte])
                (getall toy_parse) idle) =
       Returned Null.
Proof.
  split.
  - exact (proj1 (proj2 (proj2
      (@get_and_getall_results (list nat) toy_parse
         (fun _ _ => [x01; x00; x00; x00; x00; x00; x00; x00; x03;
                      "["%byte; "1"%byte; "]"%byte])
         (Finite false 5 1) idle eq_refl)))).
  - exact (proj1 (proj2 (proj2 (proj2
      (@get_and_getall_results (list nat) toy_parse
         (fun _ _ => [x00; x00; x00; x00; x00; x00; x00; x00; x03;
                      "E"%byte; "R"%byte; "R"%byte])
         Zero idle eq_refl))))).
Defined.

(* ------------------------------------------------------------------ *)
(** * Further properties of the client *)

(** ** Subsequences *)

Lemma subseq_refl A (l : list A) : subseq l l.
Proof. induction l; constructor; assumption. Qed.

Lemma subseq_nil_l A (l : list A) : subseq [] l.
Proof. induction l; constructor; assumption. Qed.

Lemma subseq_app A (l1 l1' l2 l2' : list A) :
  subseq l1 l1' -> subseq l2 l2' -> subseq (l1 ++ l2) (l1' ++ l2').
Proof.
  intros H1 H2. induction H1; simpl; try constructor; assumption.
Qed.

Lemma subseq_trans A (l1 l2 l3 : list A) :
  subseq l1 l2 -> subseq l2 l3 -> subseq l1 l3.
Proof.
  intros H12 H23. revert l1 H12.
  induction H23 as [|x l2 l3 H IH|x l2 l3 H IH]; intros l1 H12.
  - exact H12.
  - constructor. apply IH. exact H12.
  - inversion H12; subst.
    + apply subseq_skip. apply IH. assumption.
    + apply subseq_keep. apply IH. assumption.
Qed.

Lemma subseq_Forall A (P : A -> Prop) (l l' : list A) :
  subseq l l' -> Forall P l' -> Forall P l.
Proof.
  intros H. induction H; intros HF; auto.
  - inversion HF; subst. auto.
  - inversion HF; subst. constructor; auto.
Qed.

Lemma subseq_sorted (l l' : list nat) :
  subseq l l' -> Sorted.StronglySorted lt l' -> Sorted.StronglySorted lt l.
Proof.
  intros H. induction H; intros HS.
  - constructor.
  - inversion HS; subst. auto.
  - inversion HS; subst. constructor; auto.
    eapply subseq_Forall; eassumption.
Qed.

Lemma sorted_snoc (l : list nat) (x : nat) :
  Sorted.StronglySorted lt l -> Forall (fun y => y < x) l ->
  Sorted.StronglySorted lt (l ++ [x]).
Proof.
  induction l as [|a l IH]; intros HS HF; simpl.
  - constructor; constructor.
  - inversion HS; subst. inversion HF; subst.
    constructor; auto.
    apply Forall_app. split; [assumption | constructor; [assumption|constructor]].
Qed.

Lemma sorted_NoDup (l : list nat) :
  Sorted.StronglySorted lt l -> NoDup l.
Proof.
  induction 1 as [|a l HS IH HF]; constructor; auto.
  intros Hin. rewrite Forall_forall in HF. specialize (HF a Hin). lia.
Qed.

Lemma resolved_app (l l' : list effect) :
  resolved (l ++ l') = resolved l ++ resolved l'.
Proof.
  induction l as [|e l IH]; simpl; [reflexivity|].
  destruct e; simpl; rewrite ?IH; reflexivity.
Qed.

Lemma destroyed_app (l l' : list effect) :
  destroyed (l ++ l') = destroyed l + destroyed l'.
Proof.
  induction l as [|e l IH]; simpl; [reflexivity|].
  destruct e; simpl; rewrite ?IH; reflexivity.
Qed.


(* ------------------------------------------------------------------ *)
(** ** The order of the replies *)

Lemma ordered_extend (L L' : list nat) (pr : nat) :
  StronglySorted lt L -> Forall (fun p => p < pr) L ->
  subseq L' (L ++ [pr]) ->
  StronglySorted lt L' /\ Forall (fun p => p < S pr) L'.
Proof.
  intros HS HF Hsub. split.
  - apply (subseq_sorted Hsub). apply sorted_snoc; assumption.
  - apply (subseq_Forall Hsub). apply Forall_app. split.
    + revert HF. apply Forall_impl. intros; lia.
    + constructor; [lia | constructor].
Qed.

Lemma ordered_keep (L L' : list nat) (pr : nat) :
  StronglySorted lt L -> Forall (fun p => p < pr) L ->
  subseq L' L ->
  StronglySorted lt L' /\ Forall (fun p => p < pr) L'.
Proof.
  intros HS HF Hsub. split.
  - apply (subseq_sorted Hsub HS).
  - apply (subseq_Forall Hsub HF).
Qed.

Lemma well_ordered_step (c : TectonicDB) (e : event) :
  well_ordered c -> well_ordered (step c e).
Proof.
  destruct c as [p a queue act ini eff pr].
  unfold well_ordered, pending. simpl. intros (Hq1 & Hq2 & HS & HF).
  destruct e as [msg| |buf|err|]; simpl.
  - (* cmd *)
    unfold cmd. simpl.
    destruct act as [q0|]; destruct ini; simpl.
    + split; [discriminate|]. split; [discriminate|].
      apply ordered_extend with (L := resolved eff ++ cb q0 :: map cb queue);
        auto.
      rewrite map_app. simpl. rewrite <- app_assoc. simpl.
      apply subseq_refl.
    + rewrite (Hq1 eq_refl) in *. simpl in *.
      split; [reflexivity|]. split; [reflexivity|].
      rewrite resolved_app. simpl. rewrite app_nil_r.
      apply ordered_extend with (L := resolved eff ++ [cb q0]); auto.
      rewrite <- app_assoc. apply subseq_app; [apply subseq_refl|].
      simpl. apply subseq_skip. apply subseq_refl.
    + rewrite (Hq2 eq_refl) in *. simpl in *.
      split; [reflexivity|]. split; [reflexivity|].
      rewrite resolved_app. simpl. rewrite app_nil_r in *.
      apply ordered_extend with (L := resolved eff); auto.
      apply subseq_refl.
    + rewrite (Hq2 eq_refl) in *. simpl in *.
      split; [reflexivity|]. split; [reflexivity|].
      rewrite resolved_app. simpl. rewrite app_nil_r in *.
      apply ordered_extend with (L := resolved eff); auto.
      apply subseq_refl.
  - (* connect *)
    unfold on_connect. simpl.
    destruct queue as [|q0 rest]; simpl.
    + split; [discriminate|]. split; [reflexivity|]. auto.
    + destruct act as [q1|]; [|discriminate (Hq2 eq_refl)].
      split; [discriminate|]. split; [discriminate|].
      rewrite resolved_app. simpl. rewrite app_nil_r.
      apply ordered_keep with (L := resolved eff ++ cb q1 :: cb q0 :: map cb rest);
        auto.
      apply subseq_app; [apply subseq_refl|].
      apply subseq_skip. apply subseq_refl.
  - (* data *)
    unfold handleSocketData. simpl.
    destruct act as [q0|].
    + destruct (JS.endsWith buf "exit"); destruct queue as [|q1 rest]; simpl;
        (split; [intros H; first [reflexivity | discriminate (Hq1 H)] |]);
        (split; [(intros; reflexivity) || discriminate |]);
        rewrite !resolved_app; simpl; rewrite ?app_nil_r, <- ?app_assoc;
        simpl; auto.
    + rewrite (Hq2 eq_refl) in *.
      destruct (JS.endsWith buf "exit"); simpl;
        (split; [reflexivity|]); (split; [reflexivity|]);
        rewrite ?resolved_app; simpl; rewrite ?app_nil_r;
        simpl in HS, HF; rewrite app_nil_r in HS, HF; auto.
  - (* error *)
    unfold on_error. simpl.
    destruct act as [q0|]; simpl;
      (split; [assumption|]); (split; [assumption|]);
      rewrite ?resolved_app; simpl; rewrite ?app_nil_r; auto.
  - (* close *)
    auto.
Qed.

Lemma well_ordered_run (port_ : option N) (address_ : option string)
      (es : list event) :
  well_ordered (run (new_TectonicDB port_ address_) es).
Proof.
  induction es as [|e es IH] using rev_ind.
  - unfold well_ordered, pending. simpl.
    repeat split; auto; constructor.
  - rewrite run_snoc. apply well_ordered_step. exact IH.
Qed.

Lemma promises_step (c : TectonicDB) (e : event) :
  promises (step c e) = promises c + List.length (cmds [e]).
Proof.
  destruct c as [p a queue act ini eff pr].
  destruct e as [msg| |buf|err|]; simpl.
  - unfold cmd. simpl. destruct act; destruct ini; simpl; lia.
  - unfold on_connect. simpl. destruct queue; simpl; lia.
  - unfold handleSocketData. simpl.
    destruct act; destruct (JS.endsWith buf "exit"); destruct queue; simpl; lia.
  - unfold on_error. simpl. destruct act; simpl; lia.
  - lia.
Qed.

Lemma promises_run (port_ : option N) (address_ : option string)
      (es : list event) :
  promises (run (new_TectonicDB port_ address_) es) = List.length (cmds es).
Proof.
  induction es as [|e es IH] using rev_ind; [reflexivity|].
  rewrite run_snoc, promises_step, IH, cmds_app, length_app. reflexivity.
Qed.

(** X1: whatever happens to a client from its construction on (calls of
    [cmd], connect, data, error and close events in any order), the promises
    whose [resolve] it calls are called in the order of the [cmd] calls that
    created them (the k-th call creates promise k), each at most once, and
    only promises that [cmd] has created. *)
Theorem replies_resolve_in_submission_order
        (port_ : option N) (address_ : option string) (es : list event) :
  let c := run (new_TectonicDB port_ address_) es in
  StronglySorted lt (resolved (effects c))
  /\ NoDup (resolved (effects c))
  /\ Forall (fun p => p < List.length (cmds es)) (resolved (effects c)).
Proof.
  intros c.
  destruct (well_ordered_run port_ address_ es) as (_ & _ & HS & HF).
  fold c in HS, HF.
  assert (Hsub : subseq (resolved (effects c)) (resolved (effects c) ++ pending c)).
  { rewrite <- (app_nil_r (resolved (effects c))) at 1.
    apply subseq_app; [apply subseq_refl | apply subseq_nil_l]. }
  assert (HS' := subseq_sorted Hsub HS).
  repeat split.
  - exact HS'.
  - apply sorted_NoDup. exact HS'.
  - unfold c at 1. rewrite <- (promises_run port_ address_ es).
    apply (subseq_Forall Hsub HF).
Qed.

Lemma no_connect_not_initialized (es : list event) :
  forall c,
    initialized c = false ->
    forallb (fun e => negb (is_connect e)) es = true ->
    initialized (run c es) = false.
Proof.
  induction es as [|e es IH]; intros c Hi Hes; simpl in *; [exact Hi|].
  apply andb_true_iff in Hes as [He Hes].
  apply IH; [|exact Hes].
  destruct c as [p a queue act ini eff pr]. simpl in Hi. subst ini.
  destruct e as [msg| |buf|err|]; simpl in *; try discriminate.
  - unfold cmd. simpl. destruct act; reflexivity.
  - unfold handleSocketData. simpl.
    destruct act; destruct (JS.endsWith buf "exit"); destruct queue; reflexivity.
  - unfold on_error. simpl. destruct act; reflexivity.
  - reflexivity.
Qed.

(** X2: a client never has a queued query without an active one, and queues
    nothing before its socket has connected, whatever the events since its
    construction; so when the connect callback runs for the first time its
    queue is empty: it writes nothing and leaves the active query as it
    is. *)
Theorem queue_needs_active_query
        (port_ : option N) (address_ : option string) (es : list event) :
  let c := run (new_TectonicDB port_ address_) es in
  (activeQuery c = None -> socketSendQueue c = [])
  /\ (initialized c = false -> socketSendQueue c = [])
  /\ (forallb (fun e => negb (is_connect e)) es = true ->
      on_connect c = set_initialized c true).
Proof.
  intros c.
  destruct (well_ordered_run port_ address_ es) as (H1 & H2 & _).
  fold c in H1, H2. repeat split; auto.
  intros Hes.
  assert (Hi : initialized c = false)
    by (apply no_connect_not_initialized; [reflexivity | exact Hes]).
  unfold on_connect. simpl. rewrite (H1 Hi). reflexivity.
Qed.

Lemma queue_needs_active_query_witness :
  on_connect (run (new_TectonicDB None None)
                [EvCmd "PING"; EvError "ECONNREFUSED"; EvCmd "INFO"; EvData []])
  = set_initialized
      (run (new_TectonicDB None None)
         [EvCmd "PING"; EvError "ECONNREFUSED"; EvCmd "INFO"; EvData []]) true.
Proof.
  apply (proj2 (proj2 (@queue_needs_active_query None None
           [EvCmd "PING"; EvError "ECONNREFUSED"; EvCmd "INFO"; EvData []]))).
  reflexivity.
Defined.

(** ** The order of the writes *)

Lemma write_order_step (es : list event) (c : TectonicDB) (e : event) :
  well_ordered c ->
  subseq (written (effects c) ++ queued_lines c) (map line (cmds es)) ->
  subseq (written (effects (step c e)) ++ queued_lines (step c e))
         (map line (cmds (es ++ [e]))).
Proof.
  destruct c as [p a queue act ini eff pr].
  unfold well_ordered, queued_lines. simpl. intros (Hq1 & Hq2 & _) Hsub.
  rewrite cmds_app, map_app.
  destruct e as [msg| |buf|err|]; simpl; rewrite ?app_nil_r.
  - (* cmd *)
    unfold cmd. simpl.
    destruct act as [q0|]; destruct ini; simpl.
    + rewrite map_app, app_assoc. simpl.
      apply subseq_app; [exact Hsub | apply subseq_refl].
    + rewrite (Hq1 eq_refl) in *. simpl in *.
      rewrite written_app, app_nil_r in *. simpl.
      apply subseq_app; [exact Hsub | apply subseq_refl].
    + rewrite (Hq2 eq_refl) in *. simpl in *.
      rewrite written_app, app_nil_r in *. simpl.
      apply subseq_app; [exact Hsub | apply subseq_refl].
    + rewrite (Hq2 eq_refl) in *. simpl in *.
      rewrite written_app, app_nil_r in *. simpl.
      apply subseq_app; [exact Hsub | apply subseq_refl].
  - (* connect *)
    unfold on_connect. simpl.
    destruct queue as [|q0 rest]; simpl; [exact Hsub|].
    rewrite written_app, <- app_assoc. simpl. exact Hsub.
  - (* data *)
    unfold handleSocketData. simpl.
    assert (Htl : subseq (written eff ++ map (fun q => line (message q)) (tl queue))
                         (map line (cmds es))).
    { apply subseq_trans with (2 := Hsub).
      apply subseq_app; [apply subseq_refl|].
      destruct queue; simpl; [constructor | apply subseq_skip, subseq_refl]. }
    destruct act; destruct (JS.endsWith buf "exit"); destruct queue; simpl;
      rewrite ?written_app; simpl; rewrite ?app_nil_r;
      simpl in Htl; rewrite ?app_nil_r in Htl; exact Htl.
  - (* error *)
    unfold on_error. simpl.
    destruct act; simpl; rewrite ?written_app; simpl; rewrite ?app_nil_r;
      exact Hsub.
  - exact Hsub.
Qed.

(** X3: the chunks a client has written since its construction are lines of
    commands given to [cmd], in the order they were given and each call
    written at most once: the log of writes is the list of submitted lines
    with some of them left out. *)
Theorem writes_keep_submission_order
        (port_ : option N) (address_ : option string) (es : list event) :
  subseq (written (effects (run (new_TectonicDB port_ address_) es)))
         (map line (cmds es)).
Proof.
  assert (H : subseq
                (written (effects (run (new_TectonicDB port_ address_) es))
                 ++ queued_lines (run (new_TectonicDB port_ address_) es))
                (map line (cmds es))).
  { induction es as [|e es IH] using rev_ind.
    - simpl. constructor.
    - rewrite run_snoc. apply write_order_step; [|exact IH].
      apply well_ordered_run. }
  apply subseq_trans with (2 := H).
  rewrite <- (app_nil_r (written _)) at 1.
  apply subseq_app; [apply subseq_refl | apply subseq_nil_l].
Qed.

(* ------------------------------------------------------------------ *)
(** ** Waiting for a reply *)

(** X4: while a connected client has an active query, calls of [cmd] and
    error and close events write nothing, resolve nothing and leave the
    active query in place; the commands are appended to the queue in the
    order of the calls.  Only a frame (or the connect callback) frees the
    slot, so a reply that never comes blocks every later command. *)
Theorem waiting_for_a_reply_blocks (es : list event) :
  forall (c : TectonicDB) (q : SocketQuery),
    activeQuery c = Some q ->
    initialized c = true ->
    forallb is_cmd_error_or_close es = true ->
    activeQuery (run c es) = Some q
    /\ written (effects (run c es)) = written (effects c)
    /\ resolved (effects (run c es)) = resolved (effects c)
    /\ map message (socketSendQueue (run c es)) =
         map message (socketSendQueue c) ++ cmds es.
Proof.
  induction es as [|e es IH]; intros c q Ha Hi Hes.
  - simpl. rewrite app_nil_r. auto.
  - simpl in Hes. apply andb_true_iff in Hes as [He Hes].
    rewrite run_cons.
    destruct e as [msg| |buf|err|]; simpl in He; try discriminate; simpl step.
    + pose proof (@cmd_queues c msg q Ha Hi) as E.
      destruct (IH (fst (cmd c msg)) q) as (E1 & E2 & E3 & E4);
        try (rewrite E; reflexivity); try exact Hes.
      rewrite E1, E2, E3, E4, E. simpl.
      rewrite map_app, <- app_assoc. auto.
    + assert (E : on_error c err = perform c (Reject (onError q) err))
        by (unfold on_error; rewrite Ha; reflexivity).
      destruct (IH (on_error c err) q) as (E1 & E2 & E3 & E4);
        try (rewrite E; assumption); try exact Hes.
      rewrite E1, E2, E3, E4, E. simpl.
      rewrite written_app, resolved_app. simpl. rewrite !app_nil_r. auto.
    + destruct (IH c q Ha Hi Hes) as (E1 & E2 & E3 & E4). auto.
Qed.

Lemma waiting_for_a_reply_blocks_witness :
  written (effects (run (fst (cmd idle "GET ALL AS JSON"))
                        [EvCmd "PING"; EvError "ETIMEDOUT"; EvCmd "INFO"; EvClose]))
  = [line "GET ALL AS JSON"].
Proof.
  exact (proj1 (proj2
    (@waiting_for_a_reply_blocks
       [EvCmd "PING"; EvError "ETIMEDOUT"; EvCmd "INFO"; EvClose]
       (fst (cmd idle "GET ALL AS JSON")) (query "GET ALL AS JSON" 0)
       eq_refl eq_refl eq_refl))).
Defined.

(* ------------------------------------------------------------------ *)
(** ** The size of a decoded text *)

Lemma length_fromCharCode (l : list byte) :
  String.length (JS.fromCharCode l) = List.length l.
Proof.
  unfold JS.fromCharCode, string_of_list_byte.
  induction l as [|b l IH]; simpl; [reflexivity|]. rewrite IH. reflexivity.
Qed.

(** X5: whatever the buffer, the text of the decoded response has at most
    258 characters (the length is read from one byte, and the slice runs
    three bytes past it) and no more than the buffer holds past its ninth
    byte; a buffer of nine bytes or fewer gives the empty text. *)
Theorem decoded_text_is_bounded (buf : list byte) :
  String.length (data (decode buf)) <= 258
  /\ String.length (data (decode buf)) <= List.length buf - 9
  /\ (List.length buf <= 9 -> data (decode buf) = ""%string).
Proof.
  destruct (Nat.le_gt_cases (List.length buf) 8) as [Hs|Hl].
  - rewrite (decode_short _ Hs). simpl. repeat split; lia.
  - assert (E : buf = firstn 8 buf ++ skipn 8 buf)
      by (symmetry; apply firstn_skipn).
    assert (H8 : List.length (firstn 8 buf) = 8)
      by (rewrite length_firstn; lia).
    assert (Hsk : List.length (skipn 8 buf) = List.length buf - 8)
      by apply length_skipn.
    remember (firstn 8 buf) as hdr eqn:Ehdr. clear Ehdr.
    destruct (skipn 8 buf) as [|len rest]; [simpl in Hsk; lia|].
    clear Hsk. subst buf.
    rewrite (@decode_data hdr len rest H8), length_fromCharCode, length_firstn.
    rewrite length_app, H8. simpl.
    pose proof (Byte.to_nat_bounded len).
    repeat split; try lia.
    intros H9. destruct rest; [rewrite firstn_nil; reflexivity | simpl in H9; lia].
Qed.

(* ------------------------------------------------------------------ *)
(** ** Destroying the socket *)

Lemma destroyed_step (c : TectonicDB) (e : event) :
  destroyed (effects (step c e)) =
    destroyed (effects c) + (if is_exit_frame e then 1 else 0).
Proof.
  destruct e as [msg| |buf|err|]; simpl.
  - destruct c as [p a queue [q0|] [|] eff pr]; unfold cmd; simpl;
      rewrite ?destroyed_app; simpl; lia.
  - destruct c as [p a [|q0 queue] act ini eff pr]; unfold on_connect; simpl;
      rewrite ?destroyed_app; simpl; lia.
  - rewrite handleSocketData_effects, !destroyed_app.
    destruct (activeQuery c); destruct (JS.endsWith buf "exit"); simpl; lia.
  - unfold on_error. destruct (activeQuery c); simpl;
      rewrite ?destroyed_app; simpl; lia.
  - unfold on_close. lia.
Qed.

(** X6: over any events since its construction a client calls
    [socket.destroy] once for each frame whose bytes end with "exit", and
    never otherwise: no call of [cmd], no connect, error or close event and
    no other frame destroys the socket. *)
Theorem socket_destroyed_only_by_exit_frames
        (port_ : option N) (address_ : option string) (es : list event) :
  destroyed (effects (run (new_TectonicDB port_ address_) es)) =
    List.length (filter is_exit_frame es)
  /\ (forall e, is_exit_frame e = true <->
                exists pre, e = EvData (pre ++ list_byte_of_string "exit")).
Proof.
  split.
  - induction es as [|e es IH] using rev_ind; [reflexivity|].
    rewrite run_snoc, destroyed_step, IH, filter_app, length_app. simpl.
    destruct (is_exit_frame e); reflexivity.
  - intros e. split.
    + destruct e as [msg| |buf|err|]; simpl; try discriminate.
      intros H. apply endsWith_iff in H as [pre ->]. exists pre. reflexivity.
    + intros [pre ->]. simpl. apply endsWith_iff. exists pre. reflexivity.
Qed.

(* ------------------------------------------------------------------ *)
(** ** A reply after an error *)

Lemma settled_app (l l' : list effect) (p : promise) :
  settled (l ++ l') p =
    match settled l p with
    | Some x => Some x
    | None => settled l' p
    end.
Proof.
  induction l as [|e l IH]; simpl; [reflexivity|].
  destruct e as [| | |q res|q err]; simpl; auto;
    destruct (q =? p)%nat; auto.
Qed.

(** X7: when a socket error has rejected the active query and a frame
    arrives afterwards, the frame is still handed to that query's callback
    and frees the slot for the head of the queue, but the caller's promise
    stays rejected with the error: the first settlement counts. *)
Theorem reply_after_error_stays_rejected
        (c : TectonicDB) (q : SocketQuery) (err : SocketError) (buf : list byte) :
  activeQuery c = Some q ->
  onError q = cb q ->
  settled (effects c) (cb q) = None ->
  let c' := run c [EvError err; EvData buf] in
  settled (effects c') (cb q) = Some (inr err)
  /\ resolved (effects c') = resolved (effects c) ++ [cb q]
  /\ activeQuery c' = hd_error (socketSendQueue c)
  /\ socketSendQueue c' = tl (socketSendQueue c).
Proof.
  intros Ha Hq Hs c'. subst c'. unfold run. simpl.
  assert (E : on_error c err = perform c (Reject (cb q) err))
    by (unfold on_error; rewrite Ha, Hq; reflexivity).
  rewrite E.
  destruct (handleSocketData_activeQuery (perform c (Reject (cb q) err)) buf)
    as (E1 & E2 & _).
  rewrite E1, E2, handleSocketData_effects. simpl. rewrite Ha.
  rewrite !settled_app, Hs, !resolved_app. simpl.
  rewrite Nat.eqb_refl.
  destruct (JS.endsWith buf "exit"); simpl; rewrite ?app_nil_r; auto.
Qed.

Lemma reply_after_error_stays_rejected_witness :
  settled (effects (run (fst (cmd idle "PING"))
                        [EvError "ECONNRESET"; EvData ok_frame])) 0
  = Some (inr "ECONNRESET"%string).
Proof.
  exact (proj1
    (@reply_after_error_stays_rejected (fst (cmd idle "PING")) (query "PING" 0)
       "ECONNRESET" ok_frame eq_refl eq_refl eq_refl)).
Defined.

(* ------------------------------------------------------------------ *)
(** ** Callers that await every command *)

(** X8: an async function that awaits each of its commands before the next,
    run on an idle connected client whose server answers every command,
    never stays suspended: it returns or throws, whatever it does with the
    responses.  Each of its commands is written and answered to its own
    promise before the next is written, and the client is idle again at the
    end. *)
Theorem awaited_commands_never_block
        (A : Type) (server : promise -> string -> list byte) (task : async A) :
  forall c,
    is_idle c = true ->
    is_idle (fst (drive server task c)) = true
    /\ snd (drive server task c) <> Pending
    /\ exists msgs,
         effects (fst (drive server task c)) =
           effects c ++ exchanges server (promises c) msgs
         /\ promises (fst (drive server task c)) =
              promises c + List.length msgs.
Proof.
  induction task as [a|e|msg k IH]; intros c Hc.
  - simpl. repeat split; auto; try discriminate.
    exists []. simpl. rewrite app_nil_r, Nat.add_0_r. auto.
  - simpl. repeat split; auto; try discriminate.
    exists []. simpl. rewrite app_nil_r, Nat.add_0_r. auto.
  - change (Await msg k) with (bind (await_cmd msg) k).
    rewrite drive_bind.
    destruct (@drive_await_cmd server msg c Hc) as (E1 & E2 & E3 & E4).
    destruct (drive server (await_cmd msg) c) as [c1 o].
    simpl in E1, E2, E3, E4. subst o.
    destruct (IH (decode (server (promises c) msg)) c1 E2)
      as (F1 & F2 & msgs & F3 & F4).
    repeat split; auto.
    exists (msg :: msgs). rewrite F3, F4, E3, E4. simpl.
    rewrite <- app_assoc. split; [reflexivity | lia].
Qed.

Lemma awaited_commands_never_block_witness :
  is_idle (fst (drive (fun _ _ => ok_frame)
                      (bulkadd [sample_update; sample_update]) idle)) = true
  /\ snd (drive (fun _ _ => ok_frame)
                (bulkadd [sample_update; sample_update]) idle) <> Pending.
Proof.
  pose proof (@awaited_commands_never_block TectonicResponse
                (fun _ _ => ok_frame)
                (bulkadd [sample_update; sample_update]) idle eq_refl) as H.
  exact (conj (proj1 H) (proj1 (proj2 H))).
Defined.

(* ------------------------------------------------------------------ *)
(** ** The one-line commands *)

Lemma append_assoc (a b c : string) :
  String.append (String.append a b) c = String.append a (String.append b c).
Proof.
  induction a as [|x a IH]; simpl; [reflexivity|]. rewrite IH. reflexivity.
Qed.

Lemma insert_text (update : DBUpdate) (db : string) :
  insert update db =
    await_cmd (String.append "ADD "
                 (String.append (bulk_row update) (String.append " INTO " db))).
Proof.
  cbv [insert await_cmd bind]. f_equal.
  unfold bulk_row. rewrite !append_assoc. reflexivity.
Qed.

(** X9: on an idle connected client each of the methods [info], [ping],
    [insert], [clear], [clearall], [flush], [flushall], [create] and [use]
    writes exactly one line (its command text; for [insert] the line of
    [add] followed by " INTO " and the table) and returns the decoded frame
    that answers it; [help] writes "HELP" and returns nothing.  The client
    is idle again afterwards. *)
Theorem one_line_commands
        (server : promise -> string -> list byte) (c : TectonicDB)
        (update : DBUpdate) (db dbname : string) :
  is_idle c = true ->
  Forall (fun '(task, text) =>
            snd (drive server task c) =
              Returned (decode (server (promises c) text))
            /\ effects (fst (drive server task c)) =
                 effects c ++ exchange (promises c) text (server (promises c) text)
            /\ is_idle (fst (drive server task c)) = true)
         [(info, "INFO"%string);
          (ping, "PING"%string);
          (insert update db,
           String.append "ADD "
             (String.append (bulk_row update) (String.append " INTO " db)));
          (clear, "CLEAR"%string);
          (clearall, "CLEAR ALL"%string);
          (flush, "FLUSH"%string);
          (flushall, "FLUSH ALL"%string);
          (create dbname, String.append "CREATE " dbname);
          (use dbname, String.append "USE " dbname)]
  /\ snd (drive server help c) = Returned tt
  /\ effects (fst (drive server help c)) =
       effects c ++ exchange (promises c) "HELP" (server (promises c) "HELP").
Proof.
  intros Hc.
  assert (H : forall text,
             snd (drive server (await_cmd text) c) =
               Returned (decode (server (promises c) text))
             /\ effects (fst (drive server (await_cmd text) c)) =
                  effects c ++ exchange (promises c) text (server (promises c) text)
             /\ is_idle (fst (drive server (await_cmd text) c)) = true).
  { intros text.
    destruct (@drive_await_cmd server text c Hc) as (E1 & E2 & E3 & _). auto. }
  split; [|split].
  - rewrite insert_text.
    repeat (apply Forall_cons; [apply H|]). apply Forall_nil.
  - unfold help. rewrite drive_bind.
    destruct (H "HELP"%string) as (E1 & _).
    destruct (drive server (await_cmd "HELP") c) as [c1 o].
    simpl in E1. subst o. reflexivity.
  - unfold help. rewrite drive_bind.
    destruct (H "HELP"%string) as (E1 & E2 & _).
    destruct (drive server (await_cmd "HELP") c) as [c1 o].
    simpl in E1, E2. subst o. exact E2.
Qed.

Lemma one_line_commands_witness :
  snd (drive (fun _ _ => ok_frame) help idle) = Returned tt.
Proof.
  exact (proj1 (proj2
    (@one_line_commands (fun _ _ => ok_frame) idle sample_update
       "default" "default" eq_refl))).
Defined.

(* ------------------------------------------------------------------ *)
(** ** Commands given before the socket has connected *)

(** A promise that is unsettled, created, and held by no query of the client
    stays so. *)
Lemma abandoned_step (p : promise) (c : TectonicDB) (e : event) :
  settled (effects c) p = None /\ ~ In p (held c) /\ p < promises c ->
  settled (effects (step c e)) p = None
  /\ ~ In p (held (step c e))
  /\ p < promises (step c e).
Proof.
  destruct c as [po a queue act ini eff pr].
  unfold held. simpl. intros (Hs & Hh & Hp).
  destruct e as [msg| |buf|err|]; simpl.
  - (* cmd *)
    unfold cmd. simpl.
    destruct act as [q0|]; destruct ini; simpl;
      rewrite ?settled_app, ?Hs; simpl; (split; [reflexivity|]);
      (split; [|lia]).
    + rewrite flat_map_app. simpl.
      intros [H|[H|H]];
        [apply Hh; left; exact H | apply Hh; right; left; exact H |].
      apply in_app_or in H as [H|H]; [|simpl in H; lia].
      apply Hh. right. right. exact H.
    + intros [H|[H|H]]; try lia. apply Hh. right. right. exact H.
    + intros [H|[H|H]]; try lia. apply Hh. exact H.
    + intros [H|[H|H]]; try lia. apply Hh. exact H.
  - (* connect *)
    unfold on_connect. simpl.
    destruct queue as [|q1 rest]; simpl; [auto|].
    rewrite settled_app, Hs. simpl.
    split; [reflexivity|]. split; [|exact Hp].
    intros H. apply Hh. destruct act; simpl; [right; right|]; exact H.
  - (* data *)
    unfold handleSocketData. simpl.
    destruct act as [q0|].
    + assert (Hq0 : (cb q0 =? p)%nat = false).
      { apply Nat.eqb_neq. intros E. apply Hh. left. exact E. }
      destruct (JS.endsWith buf "exit"); destruct queue as [|q1 rest]; simpl;
        rewrite ?settled_app, ?Hs; simpl; rewrite ?Hq0;
        (split; [reflexivity|]); (split; [|exact Hp]);
        intros H; apply Hh; simpl; simpl in H; tauto.
    + destruct (JS.endsWith buf "exit"); destruct queue as [|q1 rest]; simpl;
        rewrite ?settled_app, ?Hs; simpl;
        (split; [reflexivity|]); (split; [|exact Hp]);
        intros H; apply Hh; simpl; simpl in H; tauto.
  - (* error *)
    unfold on_error. simpl.
    destruct act as [q0|]; simpl; [|auto].
    assert (Hq0 : (onError q0 =? p)%nat = false).
    { apply Nat.eqb_neq. intros E. apply Hh. right. left. exact E. }
    rewrite settled_app, Hs. simpl. rewrite Hq0. auto.
  - (* close *)
    auto.
Qed.

Lemma abandoned_run (p : promise) (es : list event) :
  forall c,
    settled (effects c) p = None /\ ~ In p (held c) /\ p < promises c ->
    settled (effects (run c es)) p = None.
Proof.
  induction es as [|e es IH]; intros c H.
  - apply H.
  - rewrite run_cons. apply IH. apply abandoned_step. exact H.
Qed.

(** X14: when [cmd] is called on a client whose socket has not connected
    yet and whose active query has a promise that is still unsettled, the
    new query takes the place of the active one, and from then on the
    earlier caller's promise is never resolved and never rejected, whatever
    events follow (connect, frames, errors, closes, further commands).  The
    client is taken at any point of its life since its construction. *)
Theorem early_callers_are_never_answered
        (port_ : option N) (address_ : option string)
        (history : list event) (q : SocketQuery)
        (msg : string) (es : list event) :
  let c := run (new_TectonicDB port_ address_) history in
  initialized c = false ->
  activeQuery c = Some q ->
  settled (effects c) (cb q) = None ->
  activeQuery (fst (cmd c msg)) = Some (query msg (promises c))
  /\ cb q <> promises c
  /\ settled (effects (run c (EvCmd msg :: es))) (cb q) = None.
Proof.
  intros c Hi Ha Hs.
  destruct (well_ordered_run port_ address_ history) as (Hq & _ & _ & HF).
  fold c in Hq, HF.
  assert (Hlt : cb q < promises c).
  { rewrite Forall_forall in HF. apply HF.
    apply in_or_app. right. unfold pending. rewrite Ha. left. reflexivity. }
  pose proof (@cmd_sends c msg (or_intror Hi)) as E.
  split; [rewrite E; reflexivity|]. split; [lia|].
  rewrite run_cons. simpl step. apply abandoned_run.
  rewrite E. unfold held. simpl. rewrite (Hq Hi). simpl.
  rewrite settled_app, Hs. simpl.
  split; [reflexivity|]. split; [|lia].
  intros [H|[H|[]]]; lia.
Qed.

Lemma early_callers_are_never_answered_witness :
  settled (effects (run (run (new_TectonicDB None None)
                             [EvError "EAGAIN"; EvCmd "CREATE a"; EvClose])
                        (EvCmd "USE a"
                         :: [EvConnect; EvData ok_frame; EvData ok_frame;
                             EvError "ECONNRESET"; EvCmd "PING"])))
          0
  = None.
Proof.
  exact (proj2 (proj2
    (@early_callers_are_never_answered None None
       [EvError "EAGAIN"; EvCmd "CREATE a"; EvClose] (query "CREATE a" 0)
       "USE a"
       [EvConnect; EvData ok_frame; EvData ok_frame;
        EvError "ECONNRESET"; EvCmd "PING"]
       eq_refl eq_refl eq_refl))).
Defined.

(* ------------------------------------------------------------------ *)
(** ** Connecting *)

Lemma connects_app (l l' : list effect) :
  connects (l ++ l') = connects l + connects l'.
Proof.
  induction l as [|e l IH]; simpl; [reflexivity|].
  destruct e; simpl; rewrite ?IH; reflexivity.
Qed.

Lemma connect_step (c : TectonicDB) (e : event) :
  connects (effects (step c e)) = connects (effects c)
  /\ port (step c e) = port c
  /\ address (step c e) = address c
  /\ hd_error (effects (step c e)) =
       match effects c with
       | [] => hd_error (effects (step c e))
       | x :: _ => Some x
       end.
Proof.
  destruct c as [p a queue act ini eff pr].
  destruct e as [msg| |buf|err|]; simpl.
  - unfold cmd. simpl. destruct act; destruct ini; simpl;
      rewrite ?connects_app; simpl; destruct eff; repeat split; simpl; lia.
  - unfold on_connect. simpl. destruct queue; simpl;
      rewrite ?connects_app; simpl; destruct eff; repeat split; simpl; lia.
  - unfold handleSocketData. simpl.
    destruct act; destruct (JS.endsWith buf "exit"); destruct queue; simpl;
      rewrite ?connects_app; simpl; rewrite ?connects_app; simpl;
      destruct eff; repeat split; simpl; lia.
  - unfold on_error. simpl. destruct act; simpl;
      rewrite ?connects_app; simpl; destruct eff; repeat split; simpl; lia.
  - unfold on_close. destruct eff; repeat split; simpl; lia.
Qed.

(** X10: a client calls [socket.connect] once, in its constructor, and never
    again whatever happens afterwards (errors and closes included: there is
    no reconnection).  The call is the first entry of the log and is made
    with the port and address the client keeps; an omitted or zero port is
    9001 and an omitted or empty address is "localhost". *)
Theorem connects_once
        (port_ : option N) (address_ : option string) (es : list event) :
  let c := run (new_TectonicDB port_ address_) es in
  connects (effects c) = 1
  /\ hd_error (effects c) = Some (Connect (port c) (address c))
  /\ port c = match port_ with
              | None | Some 0%N => 9001%N
              | Some n => n
              end
  /\ address c = match address_ with
                 | None | Some ""%string => "localhost"%string
                 | Some s => s
                 end.
Proof.
  induction es as [|e es IH] using rev_ind.
  - simpl. repeat split; destruct port_ as [[|n]|]; reflexivity.
  - destruct IH as (I1 & I2 & I3 & I4).
    cbv zeta. rewrite run_snoc.
    destruct (connect_step (run (new_TectonicDB port_ address_) es) e)
      as (E1 & E2 & E3 & E4).
    rewrite E1, E2, E3, E4.
    destruct (effects (run (new_TectonicDB port_ address_) es)) as [|x l];
      [discriminate I2|].
    simpl in I2. repeat split; assumption.
Qed.

(* ------------------------------------------------------------------ *)
(** * The importer *)

Lemma filter_map_true A B (f : A -> B) (g : B -> bool) (l : list A) :
  (forall x, g (f x) = true) -> filter g (map f l) = map f l.
Proof.
  intros H. induction l as [|x l IH]; simpl; [reflexivity|].
  rewrite H, IH. reflexivity.
Qed.

Lemma filter_map_false A B (f : A -> B) (g : B -> bool) (l : list A) :
  (forall x, g (f x) = false) -> filter g (map f l) = [].
Proof.
  intros H. induction l as [|x l IH]; simpl; [reflexivity|].
  rewrite H, IH. reflexivity.
Qed.

Section ImporterProperties.

Variable toPair : string -> string.
Variable Date_now : number.
Variable getTime : string -> number.
Variable div1000 : number -> number.

Let format := formatUpdate toPair Date_now getTime div1000.

(** X11: [formatUpdate] loses and invents nothing: it gives one record per
    buy, then one per sell, then one per fill, in the order of the update.
    Every record carries the pair of the update's market and its nounce;
    the records marked as trades are exactly those of the fills, the bids
    that are not trades exactly those of the buys, and the asks that are
    not trades exactly those of the sells.  The result is empty exactly
    when the update has no buy, no sell and no fill. *)
Theorem formatUpdate_shape (v : ExchangeStateUpdate) :
  List.length (format v) =
    List.length (Buys v) + List.length (Sells v) + List.length (Fills v)
  /\ map (fun u => (price (fields u), size (fields u))) (format v) =
       map (fun o => (Rate o, Quantity o)) (Buys v)
       ++ map (fun o => (Rate o, Quantity o)) (Sells v)
       ++ map (fun f => (FillRate f, FillQuantity f)) (Fills v)
  /\ Forall (fun u => pair (fields u) = toPair (MarketName v)
                      /\ seq (fields u) = Nounce v) (format v)
  /\ filter (fun u => is_trade (fields u)) (format v) =
       map (format_fill toPair getTime div1000 v) (Fills v)
  /\ filter (fun u => negb (is_trade (fields u)) && is_bid (fields u)) (format v) =
       map (format_buy toPair Date_now div1000 v) (Buys v)
  /\ filter (fun u => negb (is_trade (fields u)) && negb (is_bid (fields u)))
            (format v) =
       map (format_sell toPair Date_now div1000 v) (Sells v)
  /\ (format v = [] <-> Buys v = [] /\ Sells v = [] /\ Fills v = []).
Proof.
  unfold format, formatUpdate. simpl.
  split; [|split; [|split; [|split; [|split; [|split]]]]].
  - rewrite !length_app, !length_map. lia.
  - rewrite !map_app, !map_map, <- app_assoc. reflexivity.
  - rewrite !Forall_app. repeat split; apply Forall_forall; intros u Hin;
      apply in_map_iff in Hin as (x & <- & _); simpl; auto.
  - rewrite !filter_app.
    rewrite (filter_map_false (format_buy toPair Date_now div1000 v)),
            (filter_map_false (format_sell toPair Date_now div1000 v)),
            (filter_map_true (format_fill toPair getTime div1000 v));
      reflexivity.
  - rewrite !filter_app.
    rewrite (filter_map_true (format_buy toPair Date_now div1000 v)),
            (filter_map_false (format_sell toPair Date_now div1000 v)),
            (filter_map_false (format_fill toPair getTime div1000 v));
      try reflexivity.
    rewrite !app_nil_r. reflexivity.
  - rewrite !filter_app.
    rewrite (filter_map_false (format_buy toPair Date_now div1000 v)),
            (filter_map_true (format_sell toPair Date_now div1000 v)),
            (filter_map_false (format_fill toPair getTime div1000 v));
      try reflexivity.
    rewrite !app_nil_r. reflexivity.
  - split.
    + intros H. apply app_eq_nil in H as [H Hf].
      apply app_eq_nil in H as [Hb Hs].
      apply map_eq_nil in Hb, Hs, Hf. auto.
    + intros (-> & -> & ->). reflexivity.
Qed.

(** X12: the callback [watch] gives to [listen] throws a TypeError on an
    update with no buy, no sell and no fill (the first element of the empty
    array is undefined) and hands nothing to the database; on any other
    update it calls [bulkadd_into] once, with all the formatted records and
    the pair of the update's market as the table, whichever of the three
    lists the first record comes from. *)
Theorem watch_callback_needs_an_entry (v : ExchangeStateUpdate) :
  watch_callback toPair Date_now getTime div1000 v =
    match Buys v, Sells v, Fills v with
    | [], [], [] => TypeError
    | _, _, _ => CallBulkaddInto (format v) (toPair (MarketName v))
    end.
Proof.
  unfold watch_callback, format, formatUpdate. simpl.
  destruct (Buys v) as [|b bs]; [|reflexivity].
  destruct (Sells v) as [|s ss]; [|reflexivity].
  destruct (Fills v) as [|f fs]; reflexivity.
Qed.

(** X13: the records of an update with N entries, given to [bulkadd_into]
    with the pair of its market on an idle connected client whose server
    answers every command, go out as N + 2 lines: "BULKADD INTO " and the
    pair, the rows of the buys, of the sells and of the fills in that order,
    and "DDAKLUB". *)
Theorem formatted_update_is_sent_whole
        (server : promise -> string -> list byte)
        (v : ExchangeStateUpdate) (c : TectonicDB) :
  is_idle c = true ->
  let rows := map (fun u => bulk_row (fields u)) (format v) in
  let r := drive server
             (bulkadd_into (map fields (format v)) (toPair (MarketName v))) c in
  written (effects (fst r)) =
    written (effects c)
    ++ map line (String.append "BULKADD INTO " (toPair (MarketName v))
                 :: rows ++ ["DDAKLUB"%string])
  /\ List.length rows =
       List.length (Buys v) + List.length (Sells v) + List.length (Fills v)
  /\ snd r <> Pending.
Proof.
  intros Hc rows r.
  destruct (@drive_bulk server (String.append "BULKADD INTO " (toPair (MarketName v)))
              (map fields (format v)) c Hc) as (E1 & _ & E3).
  change (effects (fst r) =
            effects c ++ exchanges server (promises c)
              (String.append "BULKADD INTO " (toPair (MarketName v))
               :: map bulk_row (map fields (format v)) ++ ["DDAKLUB"%string]))
    in E3.
  change (snd r = Returned
            (decode (server (promises c + List.length (map fields (format v)) + 1)
                            "DDAKLUB"))) in E1.
  repeat split.
  - rewrite E3, written_app, written_exchanges, map_map. reflexivity.
  - unfold rows, format, formatUpdate. simpl.
    rewrite !length_map, !length_app, !length_map. lia.
  - rewrite E1. discriminate.
Qed.

End ImporterProperties.

Lemma formatted_update_is_sent_whole_witness :
  written (effects (fst (drive (fun _ _ => ok_frame)
    (bulkadd_into
       (map fields
          (formatUpdate (fun s => s) (Finite false 15 13)
             (fun _ => Finite false 151 13)
             (fun x => x) sample_exchange_update))
       "BTC-NEO") idle))) =
    [line "BULKADD INTO BTC-NEO";
     line "1500000000000, 7, f, t, 0.1, 2;";
     line "1510000000000, 7, t, f, 0.1, 0.5;";
     line "DDAKLUB"].
Proof.
  exact (proj1
    (@formatted_update_is_sent_whole (fun s => s) (Finite false 15 13)
       (fun _ => Finite false 151 13) (fun x => x)
       (fun _ _ => ok_frame) sample_exchange_update idle eq_refl)).
Defined.
